(** * Instagram Content Insights scraper: the view-count extraction pipeline

    A shallow embedding of [InstagramInsightsScraper.extract_post_views],
    [_extract_with_xpath], [scroll_to_load_all_posts], [_count_visible_posts],
    [save_to_csv] and [print_summary] (src/web_scrapper.py).

    Modelling choices:
    - JavaScript / Python numbers used as positions and sizes are taken as
      exact rationals [Q]; [x // c] followed by [int(...)] is [Qfloor (x / c)].
    - A string is its list of Unicode code points ([str]). The page script
      works on JavaScript strings (UTF-16 code units); every character class it
      tests ([\d], [\s], [[KMBkmb]], ['.'], the characters removed by [trim])
      holds only code points of the Basic Multilingual Plane outside the
      surrogate range, so a code point and its UTF-16 encoding are tested and
      trimmed alike and the script is run on code points. Python's classes
      ([\d] of a [str] pattern, [str.isspace]) are those of Python 3.11
      (Unicode 14.0).
    - Dictionary keys, all literals of the code, are Rocq strings.
    - The f-string keys [f"{gx}_{gy}_{text}"] and [f"{gx}_{gy}"] are kept as
      tuples: the texts that reach them come out of the page script and contain
      no ['_'], so two keys are equal as strings exactly when they are equal as
      tuples.
    - [datetime.now().isoformat()] is a clock: the [i]-th reading of a run is
      [clock i].
    - [driver.execute_script] may raise: the [n]-th call of a run raises when
      the page says so; a raising call has no effect, and the exception
      propagates (the code has no [try] around these calls). *)

From Stdlib Require Import NArith ZArith QArith Qround Qabs Lqa Lia Bool List String Ascii.
From Stdlib Require Import Sorting.Sorted Permutation Lists.Finite.
From Stdlib Require Import Numbers.DecimalString DecimalNat.
Import ListNotations.

Open Scope nat_scope.
Open Scope string_scope.
Open Scope list_scope.

(** ** Characters and strings *)

(** A Python (or JavaScript) string: its code points. *)
Definition str : Type := list N.

(** A string literal of the code (all of them are ASCII). *)
Definition u (s : string) : str := map N_of_ascii (list_ascii_of_string s).

Definition in_ranges (rs : list (N * N)) (c : N) : bool :=
  existsb (fun r => N.leb (fst r) c && N.leb c (snd r)) rs.

(** JavaScript [\d]: the ASCII digits. *)
Definition is_digit (c : N) : bool := N.leb 48 c && N.leb c 57.

(** Python [\d] in a [str] pattern: the decimal digits (category Nd). *)
Definition nd_ranges : list (N * N) :=
  [(48, 57); (1632, 1641); (1776, 1785); (1984, 1993); (2406, 2415); (2534, 2543);
   (2662, 2671); (2790, 2799); (2918, 2927); (3046, 3055); (3174, 3183);
   (3302, 3311); (3430, 3439); (3558, 3567); (3664, 3673); (3792, 3801);
   (3872, 3881); (4160, 4169); (4240, 4249); (6112, 6121); (6160, 6169);
   (6470, 6479); (6608, 6617); (6784, 6793); (6800, 6809); (6992, 7001);
   (7088, 7097); (7232, 7241); (7248, 7257); (42528, 42537); (43216, 43225);
   (43264, 43273); (43472, 43481); (43504, 43513); (43600, 43609);
   (44016, 44025); (65296, 65305); (66720, 66729); (68912, 68921);
   (69734, 69743); (69872, 69881); (69942, 69951); (70096, 70105);
   (70384, 70393); (70736, 70745); (70864, 70873); (71248, 71257);
   (71360, 71369); (71472, 71481); (71904, 71913); (72016, 72025);
   (72784, 72793); (73040, 73049); (73120, 73129); (92768, 92777);
   (92864, 92873); (93008, 93017); (120782, 120831); (123200, 123209);
   (123632, 123641); (125264, 125273); (130032, 130041)]%N.

Definition py_digit (c : N) : bool := in_ranges nd_ranges c.

(** the class [[KMBkmb]] *)
Definition is_kmb (c : N) : bool :=
  N.eqb c 75 || N.eqb c 77 || N.eqb c 66 || N.eqb c 107 || N.eqb c 109 || N.eqb c 98.

(** JavaScript [\s] and the characters removed by [String.prototype.trim]:
    white space and line terminators. *)
Definition js_space (c : N) : bool :=
  in_ranges [(9, 13); (32, 32); (160, 160); (5760, 5760); (8192, 8202); (8232, 8233);
             (8239, 8239); (8287, 8287); (12288, 12288); (65279, 65279)]%N c.

(** Python [str.isspace] (the characters removed by [str.strip()]). *)
Definition py_space (c : N) : bool :=
  in_ranges [(9, 13); (28, 32); (133, 133); (160, 160); (5760, 5760); (8192, 8202);
             (8232, 8233); (8239, 8239); (8287, 8287); (12288, 12288)]%N c.

Fixpoint str_eqb (a b : str) : bool :=
  match a, b with
  | [], [] => true
  | x :: a', y :: b' => N.eqb x y && str_eqb a' b'
  | _, _ => false
  end.

Fixpoint lstrip (sp : N -> bool) (s : str) : str :=
  match s with
  | [] => []
  | c :: r => if sp c then lstrip sp r else s
  end.

Fixpoint rstrip (sp : N -> bool) (s : str) : str :=
  match s with
  | [] => []
  | c :: r =>
      match rstrip sp r with
      | [] => if sp c then [] else [c]
      | r' => c :: r'
      end
  end.

Definition strip (sp : N -> bool) (s : str) : str :=
  rstrip sp (lstrip sp s).

(** [text.trim()] in the page script, [text.strip()] in Python *)
Definition js_trim : str -> str := strip js_space.
Definition py_strip : str -> str := strip py_space.

Definition is_empty (s : str) : bool :=
  match s with [] => true | _ => false end.

(** ** The primary grammar: the JavaScript pattern of line 192

    [^], a group [\d+\.?\d*], [\s*], an optional group [[KMBkmb]], [$].
    A deterministic reading of the pattern: the digit run of [\d+] is
    maximal, so the next character decides [\.?]; then [\d*], [\s*], the
    optional suffix, and the end of the input ([$] without the [m] flag). *)

Definition p_end (s : str) : bool := is_empty s.

Definition p_suffix (s : str) : bool :=
  match s with
  | [] => true
  | c :: r => is_kmb c && p_end r
  end.

Fixpoint p_ws (s : str) : bool :=
  match s with
  | [] => true
  | c :: r => if js_space c then p_ws r else p_suffix s
  end.

Fixpoint p_frac (s : str) : bool :=
  match s with
  | [] => true
  | c :: r => if is_digit c then p_frac r else p_ws s
  end.

Definition p_dot (s : str) : bool :=
  match s with
  | c :: r => if N.eqb c 46 then p_frac r else p_frac s
  | [] => p_frac s
  end.

Fixpoint p_int (s : str) : bool :=
  match s with
  | [] => true
  | c :: r => if is_digit c then p_int r else p_dot s
  end.

Definition primary_match (s : str) : bool :=
  match s with
  | [] => false
  | c :: r => is_digit c && p_int r
  end.

(** ** The fallback grammar: Python [re.match(r"^\d+\.?\d*[KMBkmb]?$", text)]

    Python's [\d] is Unicode's; [$] matches at the end of the input or just
    before a final newline. *)

Definition py_dollar (s : str) : bool :=
  match s with
  | [] => true
  | [c] => N.eqb c 10
  | _ => false
  end.

Definition f_suffix (s : str) : bool :=
  match s with
  | c :: r => (is_kmb c && py_dollar r) || py_dollar s
  | [] => true
  end.

Fixpoint f_frac (s : str) : bool :=
  match s with
  | [] => true
  | c :: r => if py_digit c then f_frac r else f_suffix s
  end.

Definition f_dot (s : str) : bool :=
  match s with
  | c :: r => if N.eqb c 46 then f_frac r else f_frac s
  | [] => f_frac s
  end.

Fixpoint f_int (s : str) : bool :=
  match s with
  | [] => true
  | c :: r => if py_digit c then f_int r else f_dot s
  end.

Definition fallback_match (s : str) : bool :=
  match s with
  | [] => false
  | c :: r => py_digit c && f_int r
  end.

(** ** Observations: the dictionaries built by the page script *)

Open Scope Q_scope.

(** [x < y] on numbers. *)
Definition Qlt_bool (x y : Q) : bool := negb (Qle_bool y x).

Record obs : Type := mk_obs {
  text : str;
  top : Q;     (* rect.top + window.scrollY *)
  left : Q;    (* rect.left *)
  width : Q;
  height : Q
}.

(** A text-bearing element ([span], [div], [p]) as the page script sees it:
    the concatenation of its direct text nodes, its [innerText], the number of
    element children and its bounding client rectangle. *)
Record element : Type := mk_element {
  own_text : str;
  inner_text : str;
  n_children : nat;
  r_top : Q;
  r_left : Q;
  r_width : Q;
  r_height : Q
}.

Definition el_text (el : element) : str :=
  let text := js_trim (own_text el) in
  if is_empty text && Nat.eqb (n_children el) 0 then js_trim (inner_text el)
  else text.

Definition visible (el : element) : bool :=
  Qlt_bool 0 (r_width el) && Qlt_bool 0 (r_height el) &&
  Qlt_bool 50 (r_top el) && Qlt_bool (r_top el) 10000 &&
  Qlt_bool 0 (r_left el) && Qlt_bool (r_left el) 2000.

(** [js_script] run at vertical scroll offset [scrollY] over
    [document.querySelectorAll('span, div, p')]. *)
Fixpoint js_scan (scrollY : Q) (els : list element) : list obs :=
  match els with
  | [] => []
  | el :: rest =>
      let text := el_text el in
      if is_empty text then js_scan scrollY rest
      else if primary_match text && visible el then
        mk_obs text (r_top el + scrollY) (r_left el) (r_width el) (r_height el)
          :: js_scan scrollY rest
      else js_scan scrollY rest
  end.

(** ** First-wins filtering by a key (the [seen] set pattern) *)

Section FirstWins.
Context {A K : Type}.
Variable keq : K -> K -> bool.
Variable key : A -> K.

Fixpoint first_wins (seen : list K) (l : list A) : list A :=
  match l with
  | [] => []
  | x :: rest =>
      if existsb (keq (key x)) seen then first_wins seen rest
      else x :: first_wins (key x :: seen) rest
  end.
End FirstWins.

Definition key3_eqb (a b : Z * Z * str) : bool :=
  let '(a1, a2, a3) := a in let '(b1, b2, b3) := b in
  Z.eqb a1 b1 && Z.eqb a2 b2 && str_eqb a3 b3.

Definition key2_eqb (a b : Z * Z) : bool :=
  let '(a1, a2) := a in let '(b1, b2) := b in Z.eqb a1 b1 && Z.eqb a2 b2.

(** ** Spatial deduplication (lines 244-255) *)

Definition dedup_key (num : obs) : Z * Z * str :=
  (Qfloor (left num / 150), Qfloor (top num / 150), text num).

Definition dedup (all_numbers : list obs) : list obs :=
  first_wins key3_eqb dedup_key [] all_numbers.

(** ** Row-major sort: [l.sort(key=lambda x: (int(x["top"] // 200), x["left"]))]

    Python's sort is stable, and a stable sort by a key is unique; the
    model is a stable insertion sort using only [<] on keys, as [list.sort]
    does (tuples compare lexicographically). *)

Definition row_key (x : obs) : Z * Q := (Qfloor (top x / 200), left x).

Definition key_lt (a b : Z * Q) : bool :=
  Z.ltb (fst a) (fst b) || (Z.eqb (fst a) (fst b) && Qlt_bool (snd a) (snd b)).

Fixpoint ins_row (x : obs) (s : list obs) : list obs :=
  match s with
  | [] => [x]
  | y :: r => if key_lt (row_key y) (row_key x) then y :: ins_row x r else x :: s
  end.

Fixpoint sort_rows (l : list obs) : list obs :=
  match l with
  | [] => []
  | x :: r => ins_row x (sort_rows r)
  end.

(** ** Metric classifier (lines 265-280) *)

Definition g2_key (num : obs) : Z * Z :=
  (Qfloor (left num / 250), Qfloor (top num / 250)).

Definition size_ok (num : obs) : bool :=
  negb (Qlt_bool (width num) 10 || Qlt_bool 100 (width num)) &&
  negb (Qlt_bool (height num) 10 || Qlt_bool 50 (height num)).

Fixpoint classify (seen_positions : list (Z * Z)) (l : list obs) : list obs :=
  match l with
  | [] => []
  | num :: rest =>
      if Qlt_bool (width num) 10 || Qlt_bool 100 (width num) then classify seen_positions rest
      else if Qlt_bool (height num) 10 || Qlt_bool 50 (height num) then classify seen_positions rest
      else
        let pos_key := g2_key num in
        if existsb (key2_eqb pos_key) seen_positions then classify seen_positions rest
        else num :: classify (pos_key :: seen_positions) rest
  end.

(** ** Fallback extractor: [_extract_with_xpath] (lines 315-372)

    A span as Selenium reports it: [span.text], [span.location] and
    [span.size]. A span whose accessors raise (for instance
    [StaleElementReferenceException]) is [None] and is skipped by the
    [except ...: continue] clauses; [None] for the whole list is a failing
    [find_elements], caught by the outer [try], leaving [results] empty. *)

Record span : Type := mk_span {
  span_text : str;
  loc_x : Q;
  loc_y : Q;
  size_w : Q;
  size_h : Q
}.

Fixpoint xpath_loop (seen_positions : list (Z * Z)) (spans : list (option span)) : list obs :=
  match spans with
  | [] => []
  | None :: rest => xpath_loop seen_positions rest
  | Some sp :: rest =>
      let text := py_strip (span_text sp) in
      if is_empty text then xpath_loop seen_positions rest
      else if fallback_match text then
        if Qle_bool (size_w sp) 0 || Qle_bool (size_h sp) 0 then xpath_loop seen_positions rest
        else if Qlt_bool (size_w sp) 15 || Qlt_bool 80 (size_w sp) then xpath_loop seen_positions rest
        else
          let pos_key := (Qfloor (loc_x sp / 200), Qfloor (loc_y sp / 200)) in
          if existsb (key2_eqb pos_key) seen_positions then xpath_loop seen_positions rest
          else mk_obs text (loc_y sp) (loc_x sp) (size_w sp) (size_h sp)
                 :: xpath_loop (pos_key :: seen_positions) rest
      else xpath_loop seen_positions rest
  end.

Definition extract_with_xpath (spans : option (list (option span))) : list obs :=
  match spans with
  | None => []
  | Some l => xpath_loop [] l
  end.

(** ** Output records: the dictionaries of lines 298-308 *)

Inductive pyval : Type :=
| PStr (s : str)
| PNone.

(** A Python dict with its insertion-ordered keys (pairwise distinct). *)
Definition pydict : Type := list (string * pyval).

Fixpoint dict_get (k : string) (d : pydict) : option pyval :=
  match d with
  | [] => None
  | (k', v) :: r => if String.eqb k k' then Some v else dict_get k r
  end.

(** [str(n)] for a natural number. *)
Definition py_str_nat (n : nat) : str := u (NilZero.string_of_uint (Nat.to_uint n)).

Definition mk_post (i : nat) (num_data : obs) (now : str) : pydict :=
  [("label", PStr (u "image" ++ py_str_nat (i + 1)));
   ("views", PStr (text num_data));
   ("likes", PNone);
   ("comments", PNone);
   ("shares", PNone);
   ("saves", PNone);
   ("image_src", PNone);
   ("alt_text", PNone);
   ("scraped_at", PStr now)].

(** [for i, num_data in enumerate(view_counts)]; the [i]-th
    [datetime.now().isoformat()] reading is [clock i]. *)
Fixpoint build_posts (clock : nat -> str) (i : nat) (view_counts : list obs) : list pydict :=
  match view_counts with
  | [] => []
  | num_data :: rest => mk_post i num_data (clock i) :: build_posts clock (S i) rest
  end.

(** ** The pipeline after sampling: lines 241-313

    [passes] are the per-pass results of [js_script] ([all_numbers] is their
    concatenation), [spans] what the fallback would read from the page. *)

Definition primary_candidates (passes : list (list obs)) : list obs :=
  let all_numbers := List.concat passes in
  let unique_numbers := sort_rows (dedup all_numbers) in
  classify [] unique_numbers.

Definition final_candidates (passes : list (list obs)) (spans : option (list (option span))) : list obs :=
  let view_counts := primary_candidates passes in
  if Nat.ltb (List.length view_counts) 10 then extract_with_xpath spans else view_counts.

Definition extract_post_views (passes : list (list obs)) (spans : option (list (option span)))
    (clock : nat -> str) : list pydict :=
  match final_candidates passes spans with
  | [] => []
  | view_counts => build_posts clock 0 (sort_rows view_counts)
  end.

(** ** [save_to_csv] (lines 374-385):
    [csv.DictWriter(f, fieldnames=posts_data[0].keys())], [writeheader()],
    [writerows(posts_data)]

    The written table before quoting. A row takes its values in field order,
    a missing key or [None] giving the empty string ([restval] and the csv
    writer's [None]); a row with a key outside the field names raises
    [ValueError] (the default [extrasaction='raise']) once the header and
    the rows before it are written. *)

Inductive csv_result : Type :=
| NoData                                  (* early return on empty posts_data *)
| CsvWritten (table : list (list str))
| CsvValueError (written : list (list str)).

Definition csv_cell (v : option pyval) : str :=
  match v with
  | Some (PStr s) => s
  | _ => []
  end.

(** [DictWriter._dict_to_list] *)
Definition csv_row (fieldnames : list string) (rowdict : pydict) : option (list str) :=
  if existsb (fun kv => negb (existsb (String.eqb (fst kv)) fieldnames)) rowdict then None
  else Some (map (fun k => csv_cell (dict_get k rowdict)) fieldnames).

(** [writerows]: the rows written, and whether a row raised. *)
Fixpoint write_rows (fieldnames : list string) (rows : list pydict) : list (list str) * bool :=
  match rows with
  | [] => ([], false)
  | r :: rest =>
      match csv_row fieldnames r with
      | None => ([], true)
      | Some cells => let (written, err) := write_rows fieldnames rest in (cells :: written, err)
      end
  end.

Definition save_to_csv (posts_data : list pydict) : csv_result :=
  match posts_data with
  | [] => NoData
  | first :: _ =>
      let fieldnames := map fst first in
      let header := map u fieldnames in
      let (rows, err) := write_rows fieldnames posts_data in
      if err then CsvValueError (header :: rows) else CsvWritten (header :: rows)
  end.

(** ** Multi-pass sampler (lines 220-239)

    The state is the browser window (its vertical scroll offset, as set by the
    last [window.scrollTo]) and the number of [driver.execute_script] calls
    made so far. *)

Record window : Type := mk_window {
  offset : Z;
  calls : nat
}.

Inductive res (A : Type) : Type :=
| Ok (a : A) (w : window)
| Exc (w : window)
| NoFuel (w : window).
Arguments Ok {A}.
Arguments Exc {A}.
Arguments NoFuel {A}.

Definition M (A : Type) : Type := window -> res A.

Definition ret {A} (a : A) : M A := fun w => Ok a w.

Definition bind {A B} (m : M A) (k : A -> M B) : M B :=
  fun w => match m w with
           | Ok a w' => k a w'
           | Exc w' => Exc w'
           | NoFuel w' => NoFuel w'
           end.

Notation "x <- m ;; k" := (bind m (fun x => k))
  (at level 61, m at next level, right associativity).
Notation "m ;; k" := (bind m (fun _ => k))
  (at level 61, right associativity).

(** The page: which [execute_script] calls raise, [document.body.scrollHeight],
    [window.innerHeight], and the result of [js_script] at a scroll offset. *)
Record surface : Type := mk_surface {
  raises : nat -> bool;
  scroll_height : Z;
  inner_height : Z;
  snapshot : Z -> list obs
}.

(** [driver.execute_script(script)]: [script] maps the scroll offset to the
    new offset and the returned value; the call raises, without running the
    script, when the page says so. *)
Definition execute_script {A} (surf : surface) (script : Z -> Z * A) : M A :=
  fun w =>
    if raises surf (calls w) then Exc (mk_window (offset w) (S (calls w)))
    else let (y, a) := script (offset w) in Ok a (mk_window y (S (calls w))).

(** [window.scrollTo(0, y)] *)
Definition scroll_to (surf : surface) (y : Z) : M unit :=
  execute_script surf (fun _ => (y, tt)).

(** ["return document.body.scrollHeight"] *)
Definition get_scroll_height (surf : surface) : M Z :=
  execute_script surf (fun y => (y, scroll_height surf)).

(** ["return window.innerHeight"] *)
Definition get_inner_height (surf : surface) : M Z :=
  execute_script surf (fun y => (y, inner_height surf)).

(** [js_script] *)
Definition run_js_script (surf : surface) : M (list obs) :=
  execute_script surf (fun y => (y, snapshot surf y)).

(** [while scroll_position < total_height: ...]; [fuel] bounds the number of
    iterations ([NoFuel] when it runs out: with [viewport_height <= 100] the
    Python loop does not terminate). *)
Fixpoint scroll_loop (fuel : nat) (surf : surface) (total_height viewport_height : Z)
    (scroll_position : Z) (passes : list (list obs)) : M (list (list obs)) :=
  match fuel with
  | O => fun w => NoFuel w
  | S f =>
      if Z.ltb scroll_position total_height then
        scroll_to surf scroll_position ;;
        numbers <- run_js_script surf ;;
        scroll_loop f surf total_height viewport_height
          (scroll_position + (viewport_height - 100))%Z (passes ++ [numbers])
      else ret passes
  end.

Definition collect_numbers (fuel : nat) (surf : surface) : M (list (list obs)) :=
  total_height <- get_scroll_height surf ;;
  viewport_height <- get_inner_height surf ;;
  passes <- scroll_loop fuel surf total_height viewport_height 0%Z [] ;;
  scroll_to surf 0%Z ;;
  ret passes.

(** A one-character newline string. *)
Definition nl : str := [10%N].

(** ** [_count_visible_posts] (lines 137-147)

    The [img] elements found by
    [//img[contains(@src, 'cdninstagram') or contains(@src, 'instagram')]],
    given by their [src] attribute ([None]: no attribute, so both [contains]
    tests are false); [None] for the whole list is a raising
    [find_elements], caught by the bare [except] and counted as 0. *)

Fixpoint prefixb (p s : str) : bool :=
  match p, s with
  | [], _ => true
  | a :: p', b :: s' => N.eqb a b && prefixb p' s'
  | _ :: _, [] => false
  end.

(** XPath [contains(s, sub)] *)
Fixpoint containsb (s sub : str) : bool :=
  prefixb sub s ||
  match s with
  | [] => false
  | _ :: s' => containsb s' sub
  end.

Definition src_selected (src : option str) : bool :=
  match src with
  | Some s => containsb s (u "cdninstagram") || containsb s (u "instagram")
  | None => false
  end.

Definition count_visible_posts (images : option (list (option str))) : nat :=
  match images with
  | None => 0
  | Some l => List.length (filter src_selected l)
  end.

(** ** [scroll_to_load_all_posts] (lines 82-135)

    The page as the loop sees it: which [execute_script] calls of the run
    raise, [document.body.scrollHeight] after [k] scrolls, and the [img]
    elements present after [k] scrolls. The calls are numbered from 0: the
    first height reading (line 94), then per iteration the scroll (line 100)
    and the height reading (line 109), and last the [scrollTo(0, 0)] of
    line 133. *)

Record feed_page : Type := mk_feed_page {
  page_raises : nat -> bool;
  body_height : nat -> Z;
  images_after : nat -> option (list (option str))
}.

(** [if expected_posts and current_posts >= expected_posts] (Python truth
    value: [None] and [0] are false). *)
Definition reached_expected (expected_posts : option Z) (current_posts : nat) : bool :=
  match expected_posts with
  | None => false
  | Some e => negb (Z.eqb e 0) && Z.leb e (Z.of_nat current_posts)
  end.

(** One iteration of the [while] loop per unit of [fuel]; the loop test
    [scroll_count < max_scrolls] is kept, and [Z.to_nat max_scrolls] units of
    fuel always suffice. [call] is the number of the next [execute_script]
    call. Returns the final [scroll_count] and the number of the next call,
    or [None] when a call raises. *)
Fixpoint feed_loop (fuel : nat) (page : feed_page) (expected_posts : option Z) (max_scrolls : Z)
    (scroll_count : nat) (last_height : Z) (no_change_count : nat) (call : nat) : option (nat * nat) :=
  match fuel with
  | O => Some (scroll_count, call)
  | S f =>
      if Z.ltb (Z.of_nat scroll_count) max_scrolls then
        (* window.scrollTo(0, document.body.scrollHeight) *)
        if page_raises page call then None else
        let scroll_count := S scroll_count in
        (* return document.body.scrollHeight *)
        if page_raises page (S call) then None else
        let new_height := body_height page scroll_count in
        let current_posts := count_visible_posts (images_after page scroll_count) in
        let call := S (S call) in
        if Z.eqb new_height last_height then
          let no_change_count := S no_change_count in
          if Nat.leb 3%nat no_change_count then Some (scroll_count, call)
          else if reached_expected expected_posts current_posts then Some (scroll_count, call)
          else feed_loop f page expected_posts max_scrolls scroll_count new_height no_change_count call
        else
          if reached_expected expected_posts current_posts then Some (scroll_count, call)
          else feed_loop f page expected_posts max_scrolls scroll_count new_height 0 call
      else Some (scroll_count, call)
  end.

(** The number of scrolls performed, once the window is sent back to the top
    by [window.scrollTo(0, 0)]; [None] when an [execute_script] call raises. *)
Definition scroll_to_load_all_posts (page : feed_page) (expected_posts : option Z) (max_scrolls : Z)
    : option nat :=
  if page_raises page 0 then None else
  match feed_loop (Z.to_nat max_scrolls) page expected_posts max_scrolls 0 (body_height page 0) 0 1 with
  | None => None
  | Some (scroll_count, call) => if page_raises page call then None else Some scroll_count
  end.

(** ** [print_summary] (lines 398-415): the printed lines

    [None] is a [KeyError] on [post['label']]. *)

Fixpoint repeat_str (s : str) (n : nat) : str :=
  match n with
  | O => []
  | S k => s ++ repeat_str s k
  end.

(** [str()] of a dict value inside an f-string *)
Definition py_str_val (v : pyval) : str :=
  match v with
  | PStr s => s
  | PNone => u "None"
  end.

Definition summary_line (post : pydict) : option str :=
  match dict_get "label" post with
  | None => None
  | Some label =>
      let views := match dict_get "views" post with Some v => py_str_val v | None => u "N/A" end in
      Some (u "  " ++ py_str_val label ++ u ": " ++ views ++ u " views")
  end.

Fixpoint map_option {A B} (f : A -> option B) (l : list A) : option (list B) :=
  match l with
  | [] => Some []
  | x :: r =>
      match f x, map_option f r with
      | Some y, Some ys => Some (y :: ys)
      | _, _ => None
      end
  end.

Definition print_summary (posts_data : list pydict) : option (list str) :=
  match posts_data with
  | [] => Some [nl ++ u "No data collected."]
  | _ =>
      let n := List.length posts_data in
      match map_option summary_line (firstn 10%nat posts_data) with
      | None => None
      | Some lines =>
          Some (List.app
                  [nl ++ repeat_str (u "=") 50%nat; u "SCRAPING SUMMARY"; repeat_str (u "=") 50%nat;
                   u "Total posts scraped: " ++ py_str_nat n; nl ++ u "First 10 posts:";
                   repeat_str (u "-") 30%nat]
                  (List.app lines
                     (if Nat.ltb 10%nat n then [u "  ... and " ++ py_str_nat (n - 10)%nat ++ u " more"]
                      else [])))
      end
  end.

(** Helpers for the statements below. *)

(** Equality of sort keys, as Python's [==] on the key tuples. *)
Definition row_key_eqb (a b : Z * Q) : bool :=
  Z.eqb (fst a) (fst b) && Qeq_bool (snd a) (snd b).

(** A record without its [scraped_at] entry. *)
Definition without_time (d : pydict) : pydict :=
  filter (fun kv => negb (String.eqb (fst kv) "scraped_at")) d.

(** The columns of a record, in declaration order. *)
Definition post_fields : list string :=
  ["label"; "views"; "likes"; "comments"; "shares"; "saves"; "image_src"; "alt_text"; "scraped_at"].

(** The cells [DictWriter] writes for a row whose keys are all field names. *)
Definition csv_cells (fieldnames : list string) (rowdict : pydict) : list str :=
  map (fun k => csv_cell (dict_get k rowdict)) fieldnames.

(** * Properties *)

(** Arabic-Indic digits one and two: [U+0661 U+0662]. *)
Definition arabic_12 : str := [1633; 1634]%N.

Example primary_match_ex :
  map primary_match [u "50"; u "4.4K"; u "1.2m"; u "100 K"; u "4."; u "K"; u ".5"; u "1,000"; u "12a";
                     arabic_12; [49; 8239; 75]%N]
  = [true; true; true; true; true; false; false; false; false; false; true].
Proof. vm_compute; reflexivity. Qed.

Example fallback_match_ex :
  map fallback_match [u "50"; u "4.4K"; u "1.2m"; u "100 K"; u "4."; u "K"; u "5K" ++ nl; u "5" ++ nl;
                      u "5 "; arabic_12; [65297; 46; 50; 107]%N]
  = [true; true; true; false; true; false; true; true; false; true; true].
Proof. vm_compute; reflexivity. Qed.

(** ** First-wins filtering *)

Section FirstWinsFacts.
Context {A K : Type}.
Variable keq : K -> K -> bool.
Hypothesis keq_spec : forall a b, keq a b = true <-> a = b.
Variable key : A -> K.

Lemma keq_refl k : keq k k = true.
Proof. apply keq_spec; reflexivity. Qed.

Lemma existsb_keq_In k seen : existsb (keq k) seen = true <-> In k seen.
Proof.
  rewrite existsb_exists; split.
  - intros [k' [Hin Hk]]; apply keq_spec in Hk; subst; exact Hin.
  - intros Hin; exists k; split; [exact Hin | apply keq_refl].
Qed.

Lemma first_wins_fresh seen l x :
  In x (first_wins keq key seen l) -> ~ In (key x) seen.
Proof.
  revert seen; induction l as [|y l IH]; intros seen; simpl; [tauto|].
  destruct (existsb (keq (key y)) seen) eqn:E.
  - apply IH.
  - intros [<-|Hin].
    + rewrite <- existsb_keq_In, E; discriminate.
    + intros Hs; apply (IH _ Hin); right; exact Hs.
Qed.

Lemma first_wins_nodup seen l : NoDup (map key (first_wins keq key seen l)).
Proof.
  revert seen; induction l as [|y l IH]; intros seen; simpl; [constructor|].
  destruct (existsb (keq (key y)) seen); [apply IH|].
  simpl; constructor; [|apply IH].
  intros Hin; apply in_map_iff in Hin as [z [Hz Hin]].
  apply (first_wins_fresh _ _ _ Hin); rewrite Hz; left; reflexivity.
Qed.

Lemma first_wins_id seen l :
  NoDup (map key l) -> (forall x, In x l -> ~ In (key x) seen) -> first_wins keq key seen l = l.
Proof.
  revert seen; induction l as [|y l IH]; intros seen Hnd Hfresh; simpl; [reflexivity|].
  inversion Hnd as [|? ? Hnotin Hnd']; subst.
  destruct (existsb (keq (key y)) seen) eqn:E.
  - apply existsb_keq_In in E; exfalso; apply (Hfresh y); [left|]; auto.
  - f_equal; apply IH; [exact Hnd'|].
    intros x Hx [Heq|Hs].
    + apply Hnotin; rewrite Heq; apply in_map; exact Hx.
    + apply (Hfresh x); [right|]; auto.
Qed.

Lemma first_wins_idem seen l : first_wins keq key seen (first_wins keq key seen l) = first_wins keq key seen l.
Proof.
  apply first_wins_id; [apply first_wins_nodup|].
  intros x Hx; apply (first_wins_fresh _ _ _ Hx).
Qed.

Lemma first_wins_incl seen l x : In x (first_wins keq key seen l) -> In x l.
Proof.
  revert seen; induction l as [|y l IH]; intros seen; simpl; [tauto|].
  destruct (existsb (keq (key y)) seen); [intros H; right; eapply IH; eauto|].
  intros [->|H]; [left; reflexivity|right; eapply IH; eauto].
Qed.

Lemma first_wins_filter_seen seen l k :
  In k seen -> filter (fun z => keq (key z) k) (first_wins keq key seen l) = [].
Proof.
  intros Hk.
  destruct (filter (fun z => keq (key z) k) (first_wins keq key seen l)) as [|z r] eqn:E; [reflexivity|].
  assert (Hz : In z (filter (fun z => keq (key z) k) (first_wins keq key seen l))) by (rewrite E; left; auto).
  apply filter_In in Hz as [Hz Hkz]; apply keq_spec in Hkz.
  exfalso; apply (first_wins_fresh _ _ _ Hz); rewrite Hkz; exact Hk.
Qed.

(** The survivors carrying key [k] are the first element of [l] with that
    key, if [k] was not seen before. *)
Lemma first_wins_filter seen l k :
  ~ In k seen ->
  filter (fun z => keq (key z) k) (first_wins keq key seen l) = firstn 1 (filter (fun z => keq (key z) k) l).
Proof.
  revert seen; induction l as [|y l IH]; intros seen Hk; simpl; [reflexivity|].
  destruct (existsb (keq (key y)) seen) eqn:E.
  - apply existsb_keq_In in E.
    destruct (keq (key y) k) eqn:Ey.
    + apply keq_spec in Ey; subst; contradiction.
    + apply IH; exact Hk.
  - simpl; destruct (keq (key y) k) eqn:Ey.
    + apply keq_spec in Ey; subst.
      rewrite first_wins_filter_seen; [reflexivity|left; reflexivity].
    + apply IH; intros [Heq|Hs]; [|contradiction].
      rewrite Heq, keq_refl in Ey; discriminate.
Qed.
End FirstWinsFacts.

Lemma str_eqb_eq a b : str_eqb a b = true <-> a = b.
Proof.
  revert b; induction a as [|x a IH]; intros [|y b]; simpl; try (split; congruence).
  rewrite andb_true_iff, N.eqb_eq, IH; split; [intros [-> ->]; reflexivity|intros H; injection H; auto].
Qed.

Lemma key3_eqb_spec a b : key3_eqb a b = true <-> a = b.
Proof.
  destruct a as [[a1 a2] a3], b as [[b1 b2] b3]; simpl.
  rewrite !andb_true_iff, !Z.eqb_eq, str_eqb_eq; split.
  - intros [[-> ->] ->]; reflexivity.
  - intros H; inversion H; auto.
Qed.

Lemma key2_eqb_spec a b : key2_eqb a b = true <-> a = b.
Proof.
  destruct a as [a1 a2], b as [b1 b2]; simpl.
  rewrite !andb_true_iff, !Z.eqb_eq; split.
  - intros [-> ->]; reflexivity.
  - intros H; inversion H; auto.
Qed.

(** The classifier loop is first-wins by [G2] cell over the tokens that pass
    the size filter. *)
Lemma classify_first_wins seen l :
  classify seen l = first_wins key2_eqb g2_key seen (filter size_ok l).
Proof.
  revert seen; induction l as [|num l IH]; intros seen; simpl; [reflexivity|].
  unfold size_ok.
  destruct (Qlt_bool (width num) 10 || Qlt_bool 100 (width num)); simpl; [apply IH|].
  destruct (Qlt_bool (height num) 10 || Qlt_bool 50 (height num)); simpl; [apply IH|].
  destruct (existsb (key2_eqb (g2_key num)) seen); [apply IH|].
  f_equal; apply IH.
Qed.

(** ** The row-major sort *)

Lemma Qlt_bool_iff x y : Qlt_bool x y = true <-> x < y.
Proof.
  unfold Qlt_bool; rewrite negb_true_iff; split.
  - intros H; apply Qnot_le_lt; intros Hle; apply Qle_bool_iff in Hle; congruence.
  - intros H; destruct (Qle_bool y x) eqn:E; [|reflexivity].
    apply Qle_bool_iff in E; exfalso; apply (Qlt_not_le _ _ H E).
Qed.

Lemma key_lt_iff a b :
  key_lt a b = true <-> (fst a < fst b)%Z \/ (fst a = fst b /\ snd a < snd b).
Proof.
  unfold key_lt; rewrite orb_true_iff, andb_true_iff, Z.ltb_lt, Z.eqb_eq, Qlt_bool_iff.
  reflexivity.
Qed.

Lemma key_lt_false a b :
  key_lt a b = false <-> (fst b < fst a)%Z \/ (fst a = fst b /\ snd b <= snd a).
Proof.
  split.
  - intros H.
    destruct (Z.lt_trichotomy (fst a) (fst b)) as [Hlt|[Heq|Hgt]].
    + assert (key_lt a b = true) by (apply key_lt_iff; left; exact Hlt); congruence.
    + right; split; [exact Heq|].
      apply Qnot_lt_le; intros Hq.
      assert (key_lt a b = true) by (apply key_lt_iff; right; auto); congruence.
    + left; exact Hgt.
  - intros H; destruct (key_lt a b) eqn:E; [|reflexivity].
    apply key_lt_iff in E.
    destruct H as [H|[H1 H2]], E as [E|[E1 E2]]; try lia.
    exfalso; apply (Qlt_not_le _ _ E2 H2).
Qed.

Lemma row_key_eqb_iff a b :
  row_key_eqb a b = true <-> fst a = fst b /\ snd a == snd b.
Proof.
  unfold row_key_eqb; rewrite andb_true_iff, Z.eqb_eq, Qeq_bool_iff; reflexivity.
Qed.

Lemma key_lt_irrefl a : key_lt a a = false.
Proof. apply key_lt_false; right; split; [reflexivity|apply Qle_refl]. Qed.

(** [<=] on keys (not [b < a]) is transitive. *)
Lemma key_le_trans a b c :
  key_lt b a = false -> key_lt c b = false -> key_lt c a = false.
Proof.
  rewrite !key_lt_false; intros [H|[H1 H2]] [E|[E1 E2]].
  - left; lia.
  - left; lia.
  - left; lia.
  - right; split; [congruence|]. apply (Qle_trans _ _ _ H2 E2).
Qed.

Lemma key_lt_le a b : key_lt a b = true -> key_lt b a = false.
Proof.
  intros H; apply key_lt_iff in H; apply key_lt_false.
  destruct H as [H|[H1 H2]]; [left; exact H|right; split; [exact (eq_sym H1)|apply Qlt_le_weak, H2]].
Qed.

Lemma key_lt_not_eqb a b k :
  key_lt a b = true -> row_key_eqb b k = true -> row_key_eqb a k = false.
Proof.
  intros Hlt Hbk; destruct (row_key_eqb a k) eqn:Hak; [|reflexivity].
  apply key_lt_iff in Hlt; apply row_key_eqb_iff in Hbk, Hak.
  destruct Hbk as [B1 B2], Hak as [A1 A2].
  destruct Hlt as [H|[H1 H2]]; [lia|].
  exfalso. rewrite A2, <- B2 in H2. apply (Qlt_irrefl _ H2).
Qed.

Lemma ins_row_perm x s : Permutation (ins_row x s) (x :: s).
Proof.
  induction s as [|y s IH]; simpl; [reflexivity|].
  destruct (key_lt (row_key y) (row_key x)); [|reflexivity].
  rewrite IH; apply perm_swap.
Qed.

Lemma sort_rows_perm l : Permutation (sort_rows l) l.
Proof.
  induction l as [|x l IH]; simpl; [reflexivity|].
  rewrite ins_row_perm, IH; reflexivity.
Qed.

Definition row_le (x y : obs) : Prop := key_lt (row_key y) (row_key x) = false.

Lemma ins_row_sorted x s :
  StronglySorted row_le s -> StronglySorted row_le (ins_row x s).
Proof.
  induction s as [|y s IH]; intros Hs; simpl.
  - repeat constructor.
  - inversion Hs as [|? ? Hs' Hall]; subst.
    destruct (key_lt (row_key y) (row_key x)) eqn:E.
    + constructor; [apply IH, Hs'|].
      apply Forall_forall; intros z Hz.
      apply (Permutation_in _ (ins_row_perm x s)) in Hz as [<-|Hz].
      * apply key_lt_le, E.
      * apply (proj1 (Forall_forall _ _) Hall), Hz.
    + constructor; [exact Hs|].
      constructor; [exact E|].
      apply Forall_forall; intros z Hz.
      apply (key_le_trans _ (row_key y)); [exact E|].
      apply (proj1 (Forall_forall _ _) Hall), Hz.
Qed.

Lemma sort_rows_sorted l : StronglySorted row_le (sort_rows l).
Proof.
  induction l as [|x l IH]; simpl; [constructor|].
  apply ins_row_sorted, IH.
Qed.

(** Stability: among elements with one sort key, the order is unchanged. *)
Lemma ins_row_filter x s k :
  filter (fun z => row_key_eqb (row_key z) k) (ins_row x s)
  = filter (fun z => row_key_eqb (row_key z) k) (x :: s).
Proof.
  induction s as [|y s IH]; simpl; [reflexivity|].
  destruct (key_lt (row_key y) (row_key x)) eqn:E; [|reflexivity].
  simpl; rewrite IH; simpl.
  destruct (row_key_eqb (row_key x) k) eqn:Hx.
  - rewrite (key_lt_not_eqb _ _ _ E Hx); reflexivity.
  - destruct (row_key_eqb (row_key y) k); reflexivity.
Qed.

Lemma sort_rows_stable l k :
  filter (fun z => row_key_eqb (row_key z) k) (sort_rows l)
  = filter (fun z => row_key_eqb (row_key z) k) l.
Proof.
  induction l as [|x l IH]; simpl; [reflexivity|].
  rewrite ins_row_filter; simpl; rewrite IH; reflexivity.
Qed.

Lemma StronglySorted_nth {A} (R : A -> A -> Prop) l i j a b :
  StronglySorted R l -> (i < j)%nat ->
  nth_error l i = Some a -> nth_error l j = Some b -> R a b.
Proof.
  revert i j; induction l as [|x l IH]; intros i j Hs Hij Ha Hb.
  - destruct i; discriminate.
  - inversion Hs as [|? ? Hs' Hall]; subst.
    destruct i as [|i], j as [|j]; try lia; simpl in Ha, Hb.
    + injection Ha as <-. apply (proj1 (Forall_forall _ _) Hall).
      eapply nth_error_In; eauto.
    + apply (IH i j); auto; lia.
Qed.

(** ** Records *)

Lemma to_uint_not_nil n : Nat.to_uint n <> Decimal.Nil.
Proof.
  intros H.
  assert (Hn : n = 0%nat) by (rewrite <- (Unsigned.of_to n), H; reflexivity).
  subst; discriminate.
Qed.

Lemma u_inj a b : u a = u b -> a = b.
Proof.
  unfold u; intros H.
  rewrite <- (string_of_list_ascii_of_string a), <- (string_of_list_ascii_of_string b); f_equal.
  revert H; generalize (list_ascii_of_string b) as q; generalize (list_ascii_of_string a) as p.
  induction p as [|x p IH]; intros [|y q] H; try discriminate; [reflexivity|].
  injection H as Hxy H.
  rewrite <- (ascii_N_embedding x), <- (ascii_N_embedding y), Hxy, (IH q H); reflexivity.
Qed.

Lemma py_str_nat_inj a b : py_str_nat a = py_str_nat b -> a = b.
Proof.
  unfold py_str_nat; intros H; apply u_inj in H.
  assert (E : NilZero.uint_of_string (NilZero.string_of_uint (Nat.to_uint a))
            = NilZero.uint_of_string (NilZero.string_of_uint (Nat.to_uint b))) by (rewrite H; reflexivity).
  rewrite !NilZero.usu in E by apply to_uint_not_nil.
  injection E as E.
  rewrite <- (Unsigned.of_to a), <- (Unsigned.of_to b), E; reflexivity.
Qed.

Lemma build_posts_length clock i l : List.length (build_posts clock i l) = List.length l.
Proof.
  revert i; induction l as [|x l IH]; intros i; simpl; [reflexivity|].
  rewrite IH; reflexivity.
Qed.

Lemma build_posts_nth clock i l n c :
  nth_error l n = Some c ->
  nth_error (build_posts clock i l) n = Some (mk_post (i + n) c (clock (i + n)%nat)).
Proof.
  revert i n; induction l as [|x l IH]; intros i n Hn.
  - destruct n; discriminate.
  - destruct n as [|n]; simpl in Hn |- *.
    + injection Hn as <-. rewrite Nat.add_0_r; reflexivity.
    + rewrite (IH (S i) n Hn). replace (S i + n)%nat with (i + S n)%nat by lia; reflexivity.
Qed.

Lemma build_posts_labels clock i l :
  map (dict_get "label") (build_posts clock i l)
  = map (fun n => Some (PStr (u "image" ++ py_str_nat n))) (seq (S i) (List.length l)).
Proof.
  revert i; induction l as [|x l IH]; intros i; simpl; [reflexivity|].
  rewrite IH, Nat.add_1_r; reflexivity.
Qed.

Lemma build_posts_without_time c1 c2 i l :
  map without_time (build_posts c1 i l) = map without_time (build_posts c2 i l).
Proof.
  revert i; induction l as [|x l IH]; intros i; simpl; [reflexivity|].
  rewrite IH; reflexivity.
Qed.

Lemma build_posts_In clock i l r :
  In r (build_posts clock i l) -> exists j c, In c l /\ r = mk_post j c (clock j).
Proof.
  revert i; induction l as [|x l IH]; intros i; simpl; [tauto|].
  intros [<-|Hr].
  - exists i, x; auto.
  - destruct (IH _ Hr) as [j [c [Hc ->]]]; exists j, c; auto.
Qed.

Lemma extract_post_views_eq passes spans clock :
  extract_post_views passes spans clock
  = build_posts clock 0 (sort_rows (final_candidates passes spans)).
Proof.
  unfold extract_post_views; destruct (final_candidates passes spans); reflexivity.
Qed.

(** * The claims *)

(** ** C1 *)

(** C1 (corrected). Given the same per-pass observation lists and the same
    page for the fallback, two runs of [extract_post_views] return records
    that agree in number, order and every field except [scraped_at], which is
    the clock reading taken when each record is built. *)
Theorem extract_same_but_scraped_at passes spans clock1 clock2 :
  map without_time (extract_post_views passes spans clock1)
  = map without_time (extract_post_views passes spans clock2).
Proof.
  rewrite !extract_post_views_eq; apply build_posts_without_time.
Qed.

(** C1, counterexample: the same (empty) passes and the same page, two clock
    readings one second apart: the record lists differ. *)
Lemma extract_not_byte_identical :
  extract_post_views [] (Some [Some (mk_span (u "5") 10 300 20 20)]) (fun _ => u "2026-10-18T10:00:00")
  <> extract_post_views [] (Some [Some (mk_span (u "5") 10 300 20 20)]) (fun _ => u "2026-10-18T10:00:01").
Proof. vm_compute; discriminate. Qed.

(** ** C2 *)

(** C2 (corrected). In the re-bucket filter, the token kept for a [G2] cell
    [c] is the first token of that cell, among those passing the size
    filter, in the list sorted by row band and [left] (line 261), not in the
    deduplicator's insertion order; all later claimants are dropped. *)
Theorem classifier_g2_first_in_row_order passes c :
  filter (fun t => key2_eqb (g2_key t) c) (primary_candidates passes)
  = firstn 1 (filter (fun t => key2_eqb (g2_key t) c)
                (filter size_ok (sort_rows (dedup (List.concat passes))))).
Proof.
  unfold primary_candidates; rewrite classify_first_wins.
  apply first_wins_filter; [apply key2_eqb_spec|intros []].
Qed.

(** C2, counterexample: [a] comes first out of the deduplicator and shares its
    [G2] cell with [b], yet [b] (an earlier row band) is the one kept. *)
Lemma classifier_not_dedup_order :
  dedup (List.concat [[mk_obs (u "1") 210 100 40 20; mk_obs (u "2") 190 100 40 20]])
    = [mk_obs (u "1") 210 100 40 20; mk_obs (u "2") 190 100 40 20]
  /\ g2_key (mk_obs (u "1") 210 100 40 20) = g2_key (mk_obs (u "2") 190 100 40 20)
  /\ primary_candidates [[mk_obs (u "1") 210 100 40 20; mk_obs (u "2") 190 100 40 20]]
     = [mk_obs (u "2") 190 100 40 20].
Proof. vm_compute; repeat split. Qed.

(** ** C4 *)



(** ** C6 *)

(** C6. The spatial deduplicator is idempotent. *)
Theorem dedup_idempotent all_numbers : dedup (dedup all_numbers) = dedup all_numbers.
Proof. unfold dedup; apply first_wins_idem, key3_eqb_spec. Qed.

(** ** C5 *)

(** C5. For the final candidates [V] (primary or fallback), with [S] the
    stable sort of [V] by [(floor(top/200), left)]: [S] is a permutation of
    [V] that keeps the relative order of equal keys; the [i]-th record
    (from 0) is built from the [i]-th element of [S] with label
    [image(i+1)]; a strictly smaller row band, or the same band and a smaller
    [left], comes first; the labels are [image1 .. imageN], pairwise
    distinct. *)
Theorem records_in_row_order passes spans clock :
  let V := final_candidates passes spans in
  let S := sort_rows V in
  let R := extract_post_views passes spans clock in
  Permutation S V
  /\ (forall k, filter (fun z => row_key_eqb (row_key z) k) S
                = filter (fun z => row_key_eqb (row_key z) k) V)
  /\ List.length R = List.length S
  /\ (forall i c, nth_error S i = Some c -> nth_error R i = Some (mk_post i c (clock i)))
  /\ (forall i j a b, nth_error S i = Some a -> nth_error S j = Some b ->
        (Qfloor (top a / 200) < Qfloor (top b / 200))%Z
        \/ (Qfloor (top a / 200) = Qfloor (top b / 200) /\ left a < left b) ->
        (i < j)%nat)
  /\ map (dict_get "label") R
     = map (fun n => Some (PStr (u "image" ++ py_str_nat n))) (seq 1 (List.length R))
  /\ NoDup (map (dict_get "label") R).
Proof.
  intros V S R; unfold R; rewrite extract_post_views_eq; fold V; fold S.
  split; [apply sort_rows_perm|].
  split; [intros k; apply sort_rows_stable|].
  split; [apply build_posts_length|].
  split; [intros i c Hc; apply (build_posts_nth clock 0 S i c Hc)|].
  split.
  - intros i j a b Ha Hb Hlt.
    assert (Hk : key_lt (row_key a) (row_key b) = true) by (apply key_lt_iff; exact Hlt).
    destruct (Nat.lt_trichotomy i j) as [Hij|[->|Hji]]; [exact Hij| |].
    + rewrite Ha in Hb; injection Hb as ->; rewrite key_lt_irrefl in Hk; discriminate.
    + pose proof (StronglySorted_nth _ _ _ _ _ _ (sort_rows_sorted V) Hji Hb Ha) as Hle.
      unfold row_le in Hle; rewrite Hk in Hle; discriminate.
  - rewrite build_posts_labels, build_posts_length; split; [reflexivity|].
    apply Injective_map_NoDup; [|apply seq_NoDup].
    intros a b H; injection H as H; apply py_str_nat_inj, H.
Qed.

(** ** Helpers *)
(** ** Helpers *)

Lemma Qlt_bool_false x y : Qlt_bool x y = false <-> y <= x.
Proof.
  split.
  - intros H; apply Qnot_lt_le; intros Hlt; apply Qlt_bool_iff in Hlt; congruence.
  - intros H; destruct (Qlt_bool x y) eqn:E; [|reflexivity].
    apply Qlt_bool_iff in E; exfalso; apply (Qlt_not_le _ _ E H).
Qed.

Lemma size_ok_bounds x :
  size_ok x = true -> 10 <= width x <= 100 /\ 10 <= height x <= 50.
Proof.
  unfold size_ok; rewrite !andb_true_iff, !negb_true_iff, !orb_false_iff, !Qlt_bool_false.
  intros [[H1 H2] [H3 H4]]; auto.
Qed.

Lemma StronglySorted_first_wins {A K} (R : A -> A -> Prop) keq (key : A -> K) seen l :
  StronglySorted R l -> StronglySorted R (first_wins keq key seen l).
Proof.
  revert seen; induction l as [|x l IH]; intros seen Hs; simpl; [constructor|].
  inversion Hs as [|? ? Hs' Hall]; subst.
  destruct (existsb (keq (key x)) seen); [apply IH, Hs'|].
  constructor; [apply IH, Hs'|].
  apply Forall_forall; intros y Hy.
  apply (proj1 (Forall_forall _ _) Hall).
  apply first_wins_incl in Hy; exact Hy.
Qed.

Lemma StronglySorted_filter {A} (R : A -> A -> Prop) (p : A -> bool) l :
  StronglySorted R l -> StronglySorted R (filter p l).
Proof.
  induction l as [|x l IH]; intros Hs; simpl; [constructor|].
  inversion Hs as [|? ? Hs' Hall]; subst.
  destruct (p x); [|apply IH, Hs'].
  constructor; [apply IH, Hs'|].
  apply Forall_forall; intros y Hy; apply filter_In in Hy as [Hy _].
  apply (proj1 (Forall_forall _ _) Hall), Hy.
Qed.

Lemma sort_rows_sorted_id l :
  StronglySorted row_le l -> sort_rows l = l.
Proof.
  induction l as [|x l IH]; intros Hs; simpl; [reflexivity|].
  inversion Hs as [|? ? Hs' Hall]; subst.
  rewrite IH by exact Hs'.
  destruct l as [|y l]; simpl; [reflexivity|].
  inversion Hall as [|? ? Hxy _]; subst.
  unfold row_le in Hxy; rewrite Hxy; reflexivity.
Qed.

Lemma Qle_bool_false_lt x y : Qle_bool x y = false -> y < x.
Proof.
  intros H; apply Qnot_le_lt; intros Hle; apply Qle_bool_iff in Hle; congruence.
Qed.

Lemma xpath_loop_inv seen l :
  Forall (fun o => exists sp, In (Some sp) l
            /\ o = mk_obs (py_strip (span_text sp)) (loc_y sp) (loc_x sp) (size_w sp) (size_h sp)
            /\ fallback_match (text o) = true
            /\ 15 <= size_w sp <= 80 /\ 0 < size_h sp
            /\ ~ In (Qfloor (left o / 200), Qfloor (top o / 200)) seen) (xpath_loop seen l)
  /\ NoDup (map (fun o => (Qfloor (left o / 200), Qfloor (top o / 200))) (xpath_loop seen l)).
Proof.
  revert seen; induction l as [|[sp|] l IH]; intros seen; cbn [xpath_loop].
  - split; constructor.
  - destruct (IH seen) as [IHf IHn].
    assert (Hw : Forall (fun o => exists sp', (Some sp = Some sp' \/ In (Some sp') l)
            /\ o = mk_obs (py_strip (span_text sp')) (loc_y sp') (loc_x sp') (size_w sp') (size_h sp')
            /\ fallback_match (text o) = true
            /\ 15 <= size_w sp' <= 80 /\ 0 < size_h sp'
            /\ ~ In (Qfloor (left o / 200), Qfloor (top o / 200)) seen) (xpath_loop seen l)).
    { eapply Forall_impl; [|exact IHf]. intros o [sp' [H1 H2]]; exists sp'; auto. }
    destruct (is_empty (py_strip (span_text sp))); [split; assumption|].
    destruct (fallback_match (py_strip (span_text sp))) eqn:Hm; [|split; assumption].
    destruct (Qle_bool (size_w sp) 0 || Qle_bool (size_h sp) 0) eqn:Hpos; [split; assumption|].
    destruct (Qlt_bool (size_w sp) 15 || Qlt_bool 80 (size_w sp)) eqn:Hsz; [split; assumption|].
    destruct (existsb (key2_eqb (Qfloor (loc_x sp / 200), Qfloor (loc_y sp / 200))) seen) eqn:Hseen;
      [split; assumption|].
    apply orb_false_iff in Hpos as [Hw0 Hh0]; apply orb_false_iff in Hsz as [Hw1 Hw2].
    apply Qle_bool_false_lt in Hh0; apply Qlt_bool_false in Hw1, Hw2.
    assert (Hns : ~ In (Qfloor (loc_x sp / 200), Qfloor (loc_y sp / 200)) seen).
    { intros Hin; apply (existsb_keq_In _ key2_eqb_spec) in Hin; congruence. }
    destruct (IH ((Qfloor (loc_x sp / 200), Qfloor (loc_y sp / 200)) :: seen)) as [IHf' IHn'].
    split.
    + constructor.
      * exists sp; simpl; repeat split; auto.
      * eapply Forall_impl; [|exact IHf'].
        intros o [sp' [H1 [H2 [H3 [H4 [H5 H6]]]]]]; exists sp'.
        split; [right; exact H1|].
        split; [exact H2|split; [exact H3|split; [exact H4|split; [exact H5|]]]].
        intros Hin; apply H6; right; exact Hin.
    + cbn [map]; constructor; [|exact IHn'].
      intros Hin; apply in_map_iff in Hin as [o [Ho Hin]].
      apply (proj1 (Forall_forall _ _) IHf') in Hin as [sp' [_ [_ [_ [_ [_ H6]]]]]].
      apply H6; left; symmetry; exact Ho.
  - destruct (IH seen) as [IHf IHn]; split; [|exact IHn].
    eapply Forall_impl; [|exact IHf].
    intros o [sp' [H1 H2]]; exists sp'; split; [right; exact H1|exact H2].
Qed.

(** ** Where the candidates come from *)


Lemma xpath_loop_text seen l c :
  In c (xpath_loop seen l) ->
  (exists raw, text c = py_strip raw) /\ fallback_match (text c) = true.
Proof.
  revert seen; induction l as [|[sp|] l IH]; intros seen; simpl; [tauto| |apply IH].
  destruct (is_empty (py_strip (span_text sp))); [apply IH|].
  destruct (fallback_match (py_strip (span_text sp))) eqn:Hm; [|apply IH].
  destruct (Qle_bool (size_w sp) 0 || Qle_bool (size_h sp) 0); [apply IH|].
  destruct (Qlt_bool (size_w sp) 15 || Qlt_bool 80 (size_w sp)); [apply IH|].
  destruct (existsb _ seen); [apply IH|].
  intros [<-|H]; [simpl; split; [eexists; reflexivity|exact Hm]|eapply IH; eauto].
Qed.



(** ** C7 *)

(** C7, counterexample: the two patterns disagree in both
    directions. The trimmed text ["4 K"] matches the primary grammar, which
    allows white space before the suffix, and not the fallback pattern; the
    Arabic-Indic [U+0661 U+0662] matches the fallback pattern, whose Python [\d] is
    Unicode's, and not the primary grammar, whose JavaScript [\d] is
    [[0-9]]. *)
Lemma fallback_vs_primary_disagree :
  (primary_match (u "4 K") = true /\ fallback_match (u "4 K") = false)
  /\ (fallback_match arabic_12 = true /\ primary_match arabic_12 = false).
Proof. vm_compute; repeat split. Qed.

(** ** The sampler *)

Lemma bind_exec_ok {A B} surf (script : Z -> Z * A) (k : A -> M B) w :
  raises surf (calls w) = false ->
  bind (execute_script surf script) k w
  = k (snd (script (offset w))) (mk_window (fst (script (offset w))) (S (calls w))).
Proof.
  intros H; unfold bind, execute_script; rewrite H.
  destruct (script (offset w)); reflexivity.
Qed.

Lemma bind_exec_exc {A B} surf (script : Z -> Z * A) (k : A -> M B) w :
  raises surf (calls w) = true ->
  bind (execute_script surf script) k w = Exc (mk_window (offset w) (S (calls w))).
Proof. intros H; unfold bind, execute_script; rewrite H; reflexivity. Qed.

Lemma exec_exc {A} surf (script : Z -> Z * A) w :
  raises surf (calls w) = true ->
  execute_script surf script w = Exc (mk_window (offset w) (S (calls w))).
Proof. intros H; unfold execute_script; rewrite H; reflexivity. Qed.




(** [k * step < total_height] exactly for the first
    [ceil(total_height / step)] values of [k]. *)
Lemma scan_count_iff (total step : Z) (k : nat) :
  (0 < step)%Z ->
  ((Z.of_nat k * step < total)%Z <-> (k < Z.to_nat ((total + step - 1) / step))%nat).
Proof.
  intros Hs.
  pose proof (Z.div_mod (total + step - 1) step ltac:(lia)) as Hdm.
  pose proof (Z.mod_pos_bound (total + step - 1) step Hs) as Hr.
  set (q := ((total + step - 1) / step)%Z) in *.
  set (r := ((total + step - 1) mod step)%Z) in *.
  split; intros H.
  - assert (Z.of_nat k < q)%Z by nia. lia.
  - assert (Z.of_nat k < q)%Z by lia. nia.
Qed.

(** The loop from pass [m] on, with the window [w] and the [execute_script]
    calls numbered from [calls w]: pass [m + k] makes calls [2k] (scroll)
    and [2k + 1] (page script). *)
Lemma scroll_loop_trace surf (total_height viewport_height : Z) n :
  (100 < viewport_height)%Z ->
  (forall k : nat, (Z.of_nat k * (viewport_height - 100) < total_height)%Z <-> (k < n)%nat) ->
  forall fuel m passes w, (n - m < fuel)%nat ->
  ((forall j, (j < 2 * (n - m))%nat -> raises surf (calls w + j) = false) ->
     scroll_loop fuel surf total_height viewport_height (Z.of_nat m * (viewport_height - 100)) passes w
     = Ok (passes ++ map (fun k => snapshot surf (Z.of_nat k * (viewport_height - 100))%Z) (seq m (n - m)))
          (mk_window (if Nat.leb n m then offset w else (Z.of_nat (n - 1) * (viewport_height - 100))%Z)
                     (calls w + 2 * (n - m))))
  /\ (forall k, (k < n - m)%nat ->
        (forall i, (i < 2 * k)%nat -> raises surf (calls w + i) = false) ->
        raises surf (calls w + 2 * k) = true ->
        match scroll_loop fuel surf total_height viewport_height (Z.of_nat m * (viewport_height - 100)) passes w with
        | Exc w' => offset w' = (if Nat.eqb k 0 then offset w
                                 else Z.of_nat (m + k - 1) * (viewport_height - 100))%Z
        | _ => False
        end)
  /\ (forall k, (k < n - m)%nat ->
        (forall i, (i < 2 * k + 1)%nat -> raises surf (calls w + i) = false) ->
        raises surf (calls w + (2 * k + 1)) = true ->
        match scroll_loop fuel surf total_height viewport_height (Z.of_nat m * (viewport_height - 100)) passes w with
        | Exc w' => offset w' = (Z.of_nat (m + k) * (viewport_height - 100))%Z
        | _ => False
        end).
Proof.
  intros Hvh Hcount.
  set (s := (viewport_height - 100)%Z) in *.
  intros fuel; induction fuel as [|fuel IH]; intros m passes [y c] Hfuel; [lia|].
  cbn [scroll_loop calls offset].
  destruct (Nat.lt_ge_cases m n) as [Hmn|Hnm].
  - rewrite (proj2 (Z.ltb_lt _ _) (proj2 (Hcount m) Hmn)).
    unfold scroll_to, run_js_script.
    split; [|split].
    + intros Hok.
      assert (H0 : raises surf c = false) by (rewrite <- (Nat.add_0_r c); apply Hok; lia).
      assert (H1 : raises surf (S c) = false) by (rewrite <- Nat.add_1_r; apply Hok; lia).
      rewrite bind_exec_ok by exact H0; cbn [fst snd offset calls].
      rewrite bind_exec_ok by exact H1; cbn [fst snd offset calls].
      change (viewport_height - 100)%Z with s; replace (Z.of_nat m * s + s)%Z with (Z.of_nat (S m) * s)%Z by lia.
      destruct (IH (S m) (passes ++ [snapshot surf (Z.of_nat m * s)]) (mk_window (Z.of_nat m * s) (S (S c)))
                  ltac:(lia)) as [IHa _].
      rewrite IHa; cbn [offset calls].
      2: { intros j Hj; cbn [calls]; replace (S (S c) + j)%nat with (c + (2 + j))%nat by lia; apply Hok; lia. }
      replace (n - m)%nat with (S (n - S m)) by lia; cbn [seq map].
      rewrite <- app_assoc; cbn [app].
      rewrite (proj2 (Nat.leb_gt n m) Hmn).
      f_equal; f_equal; [|lia].
      destruct (Nat.leb_spec n (S m)) as [E|E]; [|reflexivity].
      replace (n - 1)%nat with m by lia; reflexivity.
    + intros [|k] Hk Hok Hfail.
      * rewrite bind_exec_exc by (cbn [calls]; rewrite <- (Nat.add_0_r c); exact Hfail); reflexivity.
      * assert (H0 : raises surf c = false) by (rewrite <- (Nat.add_0_r c); apply Hok; lia).
        assert (H1 : raises surf (S c) = false) by (rewrite <- Nat.add_1_r; apply Hok; lia).
        rewrite bind_exec_ok by exact H0; cbn [fst snd offset calls].
        rewrite bind_exec_ok by exact H1; cbn [fst snd offset calls].
      change (viewport_height - 100)%Z with s; replace (Z.of_nat m * s + s)%Z with (Z.of_nat (S m) * s)%Z by lia.
        destruct (IH (S m) (passes ++ [snapshot surf (Z.of_nat m * s)]) (mk_window (Z.of_nat m * s) (S (S c)))
                    ltac:(lia)) as [_ [IHb _]].
        specialize (IHb k ltac:(lia)).
        cbn [calls offset] in IHb.
        destruct (scroll_loop fuel surf total_height viewport_height (Z.of_nat (S m) * s)
                    (passes ++ [snapshot surf (Z.of_nat m * s)]) (mk_window (Z.of_nat m * s) (S (S c))));
          try (apply IHb;
               [intros i Hi; replace (S (S c) + i)%nat with (c + (2 + i))%nat by lia; apply Hok; lia
               |replace (S (S c) + 2 * k)%nat with (c + 2 * S k)%nat by lia; exact Hfail]).
        rewrite IHb;
          [|intros i Hi; replace (S (S c) + i)%nat with (c + (2 + i))%nat by lia; apply Hok; lia
           |replace (S (S c) + 2 * k)%nat with (c + 2 * S k)%nat by lia; exact Hfail].
        cbn [Nat.eqb]; destruct (Nat.eqb k 0) eqn:Ek.
        -- apply Nat.eqb_eq in Ek; subst k; replace (m + 1 - 1)%nat with m by lia; reflexivity.
        -- replace (m + S k - 1)%nat with (S m + k - 1)%nat by lia; reflexivity.
    + intros k Hk Hok Hfail.
      assert (H0 : raises surf c = false) by (rewrite <- (Nat.add_0_r c); apply Hok; lia).
      destruct k as [|k].
      * rewrite bind_exec_ok by exact H0; cbn [fst snd offset calls].
        rewrite bind_exec_exc by (cbn [calls]; rewrite <- Nat.add_1_r; exact Hfail).
        cbn [offset]; rewrite Nat.add_0_r; reflexivity.
      * assert (H1 : raises surf (S c) = false) by (rewrite <- Nat.add_1_r; apply Hok; lia).
        rewrite bind_exec_ok by exact H0; cbn [fst snd offset calls].
        rewrite bind_exec_ok by exact H1; cbn [fst snd offset calls].
      change (viewport_height - 100)%Z with s; replace (Z.of_nat m * s + s)%Z with (Z.of_nat (S m) * s)%Z by lia.
        destruct (IH (S m) (passes ++ [snapshot surf (Z.of_nat m * s)]) (mk_window (Z.of_nat m * s) (S (S c)))
                    ltac:(lia)) as [_ [_ IHc]].
        specialize (IHc k ltac:(lia)).
        cbn [calls offset] in IHc.
        replace (m + S k)%nat with (S m + k)%nat by lia.
        apply IHc.
        -- intros i Hi; replace (S (S c) + i)%nat with (c + (2 + i))%nat by lia; apply Hok; lia.
        -- replace (S (S c) + (2 * k + 1))%nat with (c + (2 * S k + 1))%nat by lia; exact Hfail.
  - assert (Hge : ~ (Z.of_nat m * s < total_height)%Z) by (rewrite Hcount; lia).
    rewrite (proj2 (Z.ltb_ge (Z.of_nat m * s) total_height) ltac:(lia)).
    replace (n - m)%nat with 0%nat by lia.
    split; [|split; intros k Hk; lia].
    intros _; rewrite (proj2 (Nat.leb_le n m) Hnm); cbn [seq map calls offset].
    rewrite app_nil_r, Nat.add_0_r; reflexivity.
Qed.

(** ** C8 *)




(** ** C9 *)



(** ** C10 *)

Lemma csv_row_keys fieldnames r :
  (forall k, In k (map fst r) -> In k fieldnames) -> csv_row fieldnames r = Some (csv_cells fieldnames r).
Proof.
  intros H; unfold csv_row.
  destruct (existsb _ r) eqn:E; [|reflexivity].
  apply existsb_exists in E as [[k v] [Hin Hk]]; cbn [fst] in Hk.
  assert (Hf : In k fieldnames) by (apply H, (in_map fst _ _ Hin)).
  assert (existsb (String.eqb k) fieldnames = true)
    by (apply existsb_exists; exists k; split; [exact Hf|apply String.eqb_refl]).
  rewrite H0 in Hk; discriminate.
Qed.

Lemma csv_row_extra fieldnames r k :
  In k (map fst r) -> ~ In k fieldnames -> csv_row fieldnames r = None.
Proof.
  intros Hin Hnot; unfold csv_row.
  destruct (existsb _ r) eqn:E; [reflexivity|].
  apply in_map_iff in Hin as [[k' v] [Hk Hin]]; cbn [fst] in Hk; subst k'.
  assert (Hx : existsb (fun kv => negb (existsb (String.eqb (fst kv)) fieldnames)) r = true).
  { apply existsb_exists; exists (k, v); split; [exact Hin|].
    cbn [fst]; apply negb_true_iff.
    destruct (existsb (String.eqb k) fieldnames) eqn:F; [|reflexivity].
    apply existsb_exists in F as [k' [Hk' E']]; apply String.eqb_eq in E'; subst k'; contradiction. }
  congruence.
Qed.

Lemma write_rows_keys fieldnames rows :
  (forall r, In r rows -> forall k, In k (map fst r) -> In k fieldnames) ->
  write_rows fieldnames rows = (map (csv_cells fieldnames) rows, false).
Proof.
  induction rows as [|r rows IH]; intros H; [reflexivity|].
  cbn [write_rows]; rewrite csv_row_keys by (apply H; left; reflexivity).
  rewrite IH by (intros r' Hr'; apply H; right; exact Hr'); reflexivity.
Qed.

Lemma write_rows_extra fieldnames pre r post k :
  (forall r', In r' pre -> forall k', In k' (map fst r') -> In k' fieldnames) ->
  In k (map fst r) -> ~ In k fieldnames ->
  write_rows fieldnames (pre ++ r :: post) = (map (csv_cells fieldnames) pre, true).
Proof.
  induction pre as [|p pre IH]; intros Hpre Hin Hnot; cbn [app write_rows map].
  - rewrite (csv_row_extra _ _ _ Hin Hnot); reflexivity.
  - rewrite csv_row_keys by (apply Hpre; left; reflexivity).
    rewrite IH by (auto; intros r' Hr'; apply Hpre; right; exact Hr'); reflexivity.
Qed.

Lemma mk_post_keys i c now : map fst (mk_post i c now) = post_fields.
Proof. reflexivity. Qed.

(** C10. Every record has the keys [label, views, likes, comments, shares,
    saves, image_src, alt_text, scraped_at] in this order, with [image_src]
    and [alt_text] [None]; [save_to_csv] writes that key list as its header
    and, per record, a row with these two columns empty (it writes nothing
    when there is no record, and never raises on these records). *)
Theorem records_fields_and_csv passes spans clock :
  let R := extract_post_views passes spans clock in
  Forall (fun r => map fst r = post_fields
                   /\ dict_get "image_src" r = Some PNone
                   /\ dict_get "alt_text" r = Some PNone) R
  /\ match save_to_csv R with
     | NoData => R = []
     | CsvWritten table =>
         hd_error table = Some (map u post_fields)
         /\ List.length (tl table) = List.length R
         /\ Forall (fun row => exists label views scraped_at,
                      row = [label; views; u ""; u ""; u ""; u ""; u ""; u ""; scraped_at]) (tl table)
     | CsvValueError _ => False
     end.
Proof.
  intros R; unfold R; rewrite extract_post_views_eq.
  generalize (sort_rows (final_candidates passes spans)) as l; intros l.
  split.
  - apply Forall_forall; intros r Hr.
    apply build_posts_In in Hr as [j [c [_ ->]]]; repeat split.
  - destruct l as [|c l]; [reflexivity|].
    unfold save_to_csv.
    change (build_posts clock 0 (c :: l)) with (mk_post 0 c (clock 0%nat) :: build_posts clock 1 l).
    cbv beta iota zeta; rewrite mk_post_keys.
    rewrite write_rows_keys.
    2: { intros r Hr k Hk.
         change (mk_post 0 c (clock 0%nat) :: build_posts clock 1 l) with (build_posts clock 0 (c :: l)) in Hr.
         apply build_posts_In in Hr as [j [c' [_ ->]]]; rewrite mk_post_keys in Hk; exact Hk. }
    cbn [tl hd_error].
    split; [reflexivity|].
    split; [apply length_map|].
    apply Forall_forall; intros row Hrow.
    apply in_map_iff in Hrow as [r [<- Hr]].
    change (mk_post 0 c (clock 0%nat) :: build_posts clock 1 l) with (build_posts clock 0 (c :: l)) in Hr.
    apply build_posts_In in Hr as [j [c' [_ ->]]].
    eexists _, _, _; reflexivity.
Qed.

(** ** C3 *)
Lemma floor_div_far a b :
  250 < Qabs (a - b) -> Qfloor (a / 250) <> Qfloor (b / 250).
Proof.
  intros Hfar Heq.
  set (k := Qfloor (a / 250)) in Heq.
  assert (Ha1 := Qfloor_le (a / 250)).
  assert (Ha2 := Qlt_floor (a / 250)).
  assert (Hb1 := Qfloor_le (b / 250)).
  assert (Hb2 := Qlt_floor (b / 250)).
  fold k in Ha1, Ha2; rewrite <- Heq in Hb1, Hb2; fold k in Hb1, Hb2.
  rewrite inject_Z_plus in Ha2, Hb2.
  unfold Qdiv in *; change (/ 250) with (1 # 250) in *.
  revert Hfar; apply Qle_not_lt.
  revert Ha1 Ha2 Hb1 Hb2.
  change (inject_Z 1) with 1 in *.
  generalize (inject_Z k) as q; intros q Ha1 Ha2 Hb1 Hb2.
  apply Qabs_case; intros _; lra.
Qed.

(** The re-bucket filter keeps a token exactly when it is the first token of
    its [G2] cell among those passing the size filter. *)
Lemma classify_keeps_iff l x :
  In x (classify [] l)
  <-> firstn 1 (filter (fun z => key2_eqb (g2_key z) (g2_key x)) (filter size_ok l)) = [x].
Proof.
  rewrite classify_first_wins.
  rewrite <- (first_wins_filter key2_eqb key2_eqb_spec g2_key [] (filter size_ok l) (g2_key x) (@in_nil _ _)).
  split.
  - intros Hx.
    assert (Hin : In x (filter (fun z => key2_eqb (g2_key z) (g2_key x))
                           (first_wins key2_eqb g2_key [] (filter size_ok l)))).
    { apply filter_In; split; [exact Hx|apply key2_eqb_spec; reflexivity]. }
    rewrite (first_wins_filter key2_eqb key2_eqb_spec g2_key [] (filter size_ok l) (g2_key x) (@in_nil _ _)) in Hin |- *.
    destruct (filter (fun z => key2_eqb (g2_key z) (g2_key x)) (filter size_ok l)) as [|y r]; [destruct Hin|].
    cbn [firstn] in Hin |- *; destruct Hin as [<-|[]]; reflexivity.
  - intros H.
    assert (Hin : In x (filter (fun z => key2_eqb (g2_key z) (g2_key x))
                           (first_wins key2_eqb g2_key [] (filter size_ok l)))) by (rewrite H; left; reflexivity).
    apply filter_In in Hin as [Hin _]; exact Hin.
Qed.

(** Removing the tokens of another [G2] cell does not change the tokens of
    the cell of [x] that pass the size filter, nor their order. *)
Lemma filter_other_cell l x y :
  g2_key x <> g2_key y ->
  filter (fun z => key2_eqb (g2_key z) (g2_key x))
    (filter size_ok (filter (fun z => negb (key2_eqb (g2_key z) (g2_key y))) l))
  = filter (fun z => key2_eqb (g2_key z) (g2_key x)) (filter size_ok l).
Proof.
  intros Hxy; induction l as [|a l IH]; [reflexivity|].
  cbn [filter].
  destruct (key2_eqb (g2_key a) (g2_key y)) eqn:Ey; cbn [negb filter].
  - apply key2_eqb_spec in Ey.
    assert (Ex : key2_eqb (g2_key a) (g2_key x) = false).
    { destruct (key2_eqb (g2_key a) (g2_key x)) eqn:E; [|reflexivity].
      apply key2_eqb_spec in E; congruence. }
    destruct (size_ok a); cbn [filter]; [rewrite Ex|]; exact IH.
  - destruct (size_ok a); cbn [filter]; [destruct (key2_eqb (g2_key a) (g2_key x)); [f_equal|]|]; exact IH.
Qed.

(** C3 (corrected). Two observations with the same text in the same
    150px grid cell (same [floor(left/150)] and [floor(top/150)]) leave exactly
    one survivor of that key in the deduplicator's output; being less than
    150 apart is not enough (see the counterexample). Two candidates whose
    [top] or [left] differ by more than 250 lie in different [G2] cells; the
    re-bucket filter keeps a token exactly when it is the first token of its
    own cell passing the size filter, so neither of the two can displace the
    other: whether [x] survives does not change when every token of [y]'s
    cell, [y] included, is removed from the input. *)
Theorem grid_collapse_and_separation :
  (forall all_numbers x y, In x all_numbers -> In y all_numbers ->
     text x = text y ->
     Qfloor (left x / 150) = Qfloor (left y / 150) ->
     Qfloor (top x / 150) = Qfloor (top y / 150) ->
     dedup_key x = dedup_key y
     /\ List.length (filter (fun z => key3_eqb (dedup_key z) (dedup_key x)) (dedup all_numbers)) = 1%nat)
  /\ (forall x y, 250 < Qabs (top x - top y) \/ 250 < Qabs (left x - left y) -> g2_key x <> g2_key y)
  /\ (forall l x,
        In x (classify [] l)
        <-> firstn 1 (filter (fun z => key2_eqb (g2_key z) (g2_key x)) (filter size_ok l)) = [x])
  /\ (forall l x y, 250 < Qabs (top x - top y) \/ 250 < Qabs (left x - left y) ->
        (In x (classify [] l)
         <-> In x (classify [] (filter (fun z => negb (key2_eqb (g2_key z) (g2_key y))) l)))).
Proof.
  assert (Hfar : forall x y, 250 < Qabs (top x - top y) \/ 250 < Qabs (left x - left y) -> g2_key x <> g2_key y).
  { intros x y Hfar; unfold g2_key; intros H; injection H as H1 H2.
    destruct Hfar as [Hfar|Hfar]; [apply (floor_div_far _ _ Hfar H2)|apply (floor_div_far _ _ Hfar H1)]. }
  split; [|split; [|split]].
  - intros all_numbers x y Hx Hy Ht Hl Htop.
    assert (Hk : dedup_key x = dedup_key y) by (unfold dedup_key; rewrite Ht, Hl, Htop; reflexivity).
    split; [exact Hk|].
    unfold dedup; rewrite (first_wins_filter key3_eqb key3_eqb_spec) by (intros []).
    destruct (filter (fun z => key3_eqb (dedup_key z) (dedup_key x)) all_numbers) eqn:E;
      [|reflexivity].
    assert (Hin : In x (filter (fun z => key3_eqb (dedup_key z) (dedup_key x)) all_numbers)).
    { apply filter_In; split; [exact Hx|apply key3_eqb_spec; reflexivity]. }
    rewrite E in Hin; destruct Hin.
  - exact Hfar.
  - apply classify_keeps_iff.
  - intros l x y Hxy.
    rewrite !classify_keeps_iff, (filter_other_cell l x y (Hfar x y Hxy)); reflexivity.
Qed.

Lemma grid_collapse_and_separation_witness :
  List.length (filter (fun z => key3_eqb (dedup_key z) (dedup_key (mk_obs (u "5") 160 100 40 20)))
     (dedup [mk_obs (u "5") 160 100 40 20; mk_obs (u "5") 170 120 40 20])) = 1%nat
  /\ g2_key (mk_obs (u "5") 100 100 40 20) <> g2_key (mk_obs (u "5") 400 100 40 20)
  /\ In (mk_obs (u "5") 400 100 40 20)
        (classify [] [mk_obs (u "5") 100 100 40 20; mk_obs (u "6") 700 120 40 20; mk_obs (u "5") 400 100 40 20])
  /\ (In (mk_obs (u "5") 400 100 40 20)
        (classify [] [mk_obs (u "5") 100 100 40 20; mk_obs (u "6") 700 120 40 20; mk_obs (u "5") 400 100 40 20])
      <-> In (mk_obs (u "5") 400 100 40 20)
           (classify [] (filter (fun z => negb (key2_eqb (g2_key z) (g2_key (mk_obs (u "6") 700 120 40 20))))
              [mk_obs (u "5") 100 100 40 20; mk_obs (u "6") 700 120 40 20; mk_obs (u "5") 400 100 40 20]))).
Proof.
  split; [|split; [|split]].
  - apply (proj1 grid_collapse_and_separation
             [mk_obs (u "5") 160 100 40 20; mk_obs (u "5") 170 120 40 20]
             (mk_obs (u "5") 160 100 40 20) (mk_obs (u "5") 170 120 40 20));
      [left; reflexivity|right; left; reflexivity|reflexivity|reflexivity|reflexivity].
  - apply (proj1 (proj2 grid_collapse_and_separation) (mk_obs (u "5") 100 100 40 20) (mk_obs (u "5") 400 100 40 20)).
    left; reflexivity.
  - apply (proj2 (proj1 (proj2 (proj2 grid_collapse_and_separation))
             [mk_obs (u "5") 100 100 40 20; mk_obs (u "6") 700 120 40 20; mk_obs (u "5") 400 100 40 20]
             (mk_obs (u "5") 400 100 40 20))).
    vm_compute; reflexivity.
  - apply (proj2 (proj2 (proj2 grid_collapse_and_separation))
             [mk_obs (u "5") 100 100 40 20; mk_obs (u "6") 700 120 40 20; mk_obs (u "5") 400 100 40 20]
             (mk_obs (u "5") 400 100 40 20) (mk_obs (u "6") 700 120 40 20)).
    left; vm_compute; reflexivity.
Defined.

(** C3, counterexample: two observations of ["5"] 2px apart vertically, on
    both sides of the 150px grid line, both survive deduplication. *)
Lemma dedup_keeps_close_pair :
  Qabs (top (mk_obs (u "5") 149 100 40 20) - top (mk_obs (u "5") 151 100 40 20)) < 150
  /\ Qabs (left (mk_obs (u "5") 149 100 40 20) - left (mk_obs (u "5") 151 100 40 20)) < 150
  /\ dedup [mk_obs (u "5") 149 100 40 20; mk_obs (u "5") 151 100 40 20]
     = [mk_obs (u "5") 149 100 40 20; mk_obs (u "5") 151 100 40 20].
Proof. split; [reflexivity|split; reflexivity]. Qed.

(** * Further properties of the code *)

(** ** The page script *)

(** X1. Every observation the page script returns comes from one element
    with a non-empty own (or inner) text matching the numeric grammar,
    a positive width and height, a viewport [top] strictly between 50 and
    10000 and a [left] strictly between 0 and 2000; its [top] is that
    viewport [top] plus the scroll offset. *)
Theorem js_scan_sound scrollY els :
  Forall (fun o => exists el, In el els
            /\ o = mk_obs (el_text el) (r_top el + scrollY) (r_left el) (r_width el) (r_height el)
            /\ primary_match (el_text el) = true
            /\ 0 < r_width el /\ 0 < r_height el
            /\ 50 < r_top el < 10000 /\ 0 < r_left el < 2000)
         (js_scan scrollY els).
Proof.
  induction els as [|el els IH]; simpl; [constructor|].
  assert (Hw : Forall (fun o => exists el', (el = el' \/ In el' els)
            /\ o = mk_obs (el_text el') (r_top el' + scrollY) (r_left el') (r_width el') (r_height el')
            /\ primary_match (el_text el') = true
            /\ 0 < r_width el' /\ 0 < r_height el'
            /\ 50 < r_top el' < 10000 /\ 0 < r_left el' < 2000) (js_scan scrollY els)).
  { eapply Forall_impl; [|exact IH]. intros o [el' [Hin Ho]]; exists el'; auto. }
  destruct (is_empty (el_text el)); [exact Hw|].
  destruct (primary_match (el_text el)) eqn:Hm; simpl; [|exact Hw].
  destruct (visible el) eqn:Hv; [|exact Hw].
  constructor; [|exact Hw].
  exists el; split; [left; reflexivity|split; [reflexivity|split; [exact Hm|]]].
  unfold visible in Hv; rewrite !andb_true_iff, !Qlt_bool_iff in Hv.
  destruct Hv as [[[[[H1 H2] H3] H4] H5] H6]; repeat split; assumption.
Qed.

(** ** Deduplication and classification *)

(** X2. Deduplication keeps only input observations, in their input order,
    at most one per key [(floor(left/150), floor(top/150), text)], and every
    input observation has its key represented in the output. *)
Theorem dedup_covers_each_key_once all_numbers :
  (forall x, In x (dedup all_numbers) -> In x all_numbers)
  /\ NoDup (map dedup_key (dedup all_numbers))
  /\ (forall x, In x all_numbers -> exists y, In y (dedup all_numbers) /\ dedup_key y = dedup_key x).
Proof.
  unfold dedup; split; [intros x; apply first_wins_incl|].
  split; [apply (first_wins_nodup _ key3_eqb_spec)|].
  intros x Hx.
  pose proof (first_wins_filter key3_eqb key3_eqb_spec dedup_key [] all_numbers (dedup_key x) (@in_nil _ _)) as E.
  assert (Hin : In x (filter (fun z => key3_eqb (dedup_key z) (dedup_key x)) all_numbers)).
  { apply filter_In; split; [exact Hx|apply key3_eqb_spec; reflexivity]. }
  destruct (filter (fun z => key3_eqb (dedup_key z) (dedup_key x)) all_numbers) as [|y r] eqn:F;
    [destruct Hin|].
  assert (Hy : In y (filter (fun z => key3_eqb (dedup_key z) (dedup_key x))
                       (first_wins key3_eqb dedup_key [] all_numbers))) by (rewrite E; left; reflexivity).
  apply filter_In in Hy as [Hy Hk]; apply key3_eqb_spec in Hk.
  exists y; auto.
Qed.

(** X3. Every primary survivor has width in [[10, 100]] and height in
    [[10, 50]], no two share a 250px cell, and they come out already in
    row-major order, so the second sort (line 292) leaves the primary list
    unchanged. *)
Theorem primary_candidates_bounds_sorted passes :
  Forall (fun x => 10 <= width x <= 100 /\ 10 <= height x <= 50) (primary_candidates passes)
  /\ NoDup (map g2_key (primary_candidates passes))
  /\ sort_rows (primary_candidates passes) = primary_candidates passes.
Proof.
  unfold primary_candidates; rewrite classify_first_wins.
  split; [|split].
  - apply Forall_forall; intros x Hx.
    apply first_wins_incl, filter_In in Hx as [_ Hx]; apply size_ok_bounds, Hx.
  - apply (first_wins_nodup _ key2_eqb_spec).
  - apply sort_rows_sorted_id, StronglySorted_first_wins, StronglySorted_filter, sort_rows_sorted.
Qed.

(** ** The fallback extraction *)

(** X4. Every value the XPath fallback returns is the stripped text of one
    [span] of the page that matches the fallback pattern, with a rendered
    width in [[15, 80]] and a positive height; its position is the span's
    location; no two results share a 200px cell; a failing [find_elements]
    gives no values. *)
Theorem extract_with_xpath_sound spans :
  Forall (fun o => exists l sp, spans = Some l /\ In (Some sp) l
            /\ o = mk_obs (py_strip (span_text sp)) (loc_y sp) (loc_x sp) (size_w sp) (size_h sp)
            /\ fallback_match (text o) = true
            /\ 15 <= size_w sp <= 80 /\ 0 < size_h sp) (extract_with_xpath spans)
  /\ NoDup (map (fun o => (Qfloor (left o / 200), Qfloor (top o / 200))) (extract_with_xpath spans))
  /\ (spans = None -> extract_with_xpath spans = []).
Proof.
  destruct spans as [l|]; simpl.
  - destruct (xpath_loop_inv [] l) as [Hf Hn].
    split; [|split; [exact Hn|discriminate]].
    eapply Forall_impl; [|exact Hf].
    intros o [sp [H1 [H2 [H3 [H4 [H5 _]]]]]]; exists l, sp.
    split; [reflexivity|split; [exact H1|split; [exact H2|split; [exact H3|split; [exact H4|exact H5]]]]].
  - repeat split; constructor.
Qed.


(** ** The sampler: termination *)

Lemma scroll_loop_stuck fuel surf (total_height viewport_height pos : Z) passes w :
  (viewport_height <= 100)%Z -> (pos < total_height)%Z -> (forall j, raises surf j = false) ->
  exists w', scroll_loop fuel surf total_height viewport_height pos passes w = NoFuel w'.
Proof.
  intros Hvh Hpos Hnr; revert pos passes w Hpos.
  induction fuel as [|f IH]; intros pos passes w Hpos; cbn [scroll_loop]; [eexists; reflexivity|].
  rewrite (proj2 (Z.ltb_lt _ _) Hpos).
  unfold scroll_to, run_js_script.
  rewrite bind_exec_ok by apply Hnr; cbn [fst snd offset calls].
  rewrite bind_exec_ok by apply Hnr; cbn [fst snd offset calls].
  apply IH; lia.
Qed.

(** X5. When [window.innerHeight <= 100] the sampler's step
    [viewport_height - 100] is not positive and, on any page of positive
    height where no [execute_script] call raises, the sampling loop never
    ends: every bound on the number of iterations is exhausted. *)
Theorem sampler_diverges_small_viewport surf :
  (forall j, raises surf j = false) -> (0 < scroll_height surf)%Z -> (inner_height surf <= 100)%Z ->
  forall fuel w0, exists w, collect_numbers fuel surf w0 = NoFuel w.
Proof.
  intros Hnr Ht Hvh fuel w0.
  unfold collect_numbers, get_scroll_height, get_inner_height.
  rewrite bind_exec_ok by apply Hnr; cbn [fst snd offset calls].
  rewrite bind_exec_ok by apply Hnr; cbn [fst snd offset calls].
  unfold bind at 1.
  destruct (scroll_loop_stuck fuel surf (scroll_height surf) (inner_height surf) 0 []
              (mk_window (offset w0) (S (S (calls w0)))) Hvh Ht Hnr) as [w Hw].
  rewrite Hw; exists w; reflexivity.
Qed.

Lemma sampler_diverges_small_viewport_witness :
  exists w, collect_numbers 20 (mk_surface (fun _ => false) 1500 100 (fun _ => [])) (mk_window 0 0) = NoFuel w.
Proof.
  apply (sampler_diverges_small_viewport (mk_surface (fun _ => false) 1500 100 (fun _ => [])));
    [intros j; reflexivity|cbn; lia|cbn; lia].
Defined.

(** X6. When [window.innerHeight > 100] and no [execute_script] call raises,
    the sampler takes exactly [n = ceil(total_height / step)] snapshots (none
    when [total_height <= 0]), at the offsets [0, step, 2*step, ...] with
    [step = innerHeight - 100], returns them in that order, and leaves the
    window at offset 0. *)
Theorem sampler_collects_each_offset surf fuel w0 :
  let step := (inner_height surf - 100)%Z in
  let n := Z.to_nat ((scroll_height surf + step - 1) / step) in
  (forall j, raises surf j = false) -> (100 < inner_height surf)%Z -> (n < fuel)%nat ->
  exists w, collect_numbers fuel surf w0
            = Ok (map (fun k => snapshot surf (Z.of_nat k * step)%Z) (seq 0 n)) w
            /\ offset w = 0%Z.
Proof.
  intros step n Hnr Hvh Hfuel.
  assert (Hcount : forall k : nat, (Z.of_nat k * step < scroll_height surf)%Z <-> (k < n)%nat)
    by (intros k; apply scan_count_iff; unfold step; lia).
  pose proof (scroll_loop_trace surf (scroll_height surf) (inner_height surf) n Hvh Hcount fuel 0 []
                (mk_window (offset w0) (S (S (calls w0)))) ltac:(lia)) as [TA _].
  fold step in TA; change (Z.of_nat 0 * step)%Z with 0%Z in TA.
  rewrite Nat.sub_0_r in TA.
  unfold collect_numbers, get_scroll_height, get_inner_height.
  rewrite bind_exec_ok by apply Hnr; cbn [fst snd offset calls].
  rewrite bind_exec_ok by apply Hnr; cbn [fst snd offset calls].
  unfold bind at 1.
  rewrite TA by (intros j _; apply Hnr).
  unfold scroll_to; rewrite bind_exec_ok by apply Hnr.
  eexists; split; reflexivity.
Qed.

Lemma sampler_collects_each_offset_witness :
  exists w, collect_numbers 4 (mk_surface (fun _ => false) 500 300 (fun y => [mk_obs (u "1K") (inject_Z y) 40 20 20]))
              (mk_window 7 0)
            = Ok [[mk_obs (u "1K") 0 40 20 20]; [mk_obs (u "1K") 200 40 20 20]; [mk_obs (u "1K") 400 40 20 20]] w
            /\ offset w = 0%Z.
Proof.
  apply (sampler_collects_each_offset
           (mk_surface (fun _ => false) 500 300 (fun y => [mk_obs (u "1K") (inject_Z y) 40 20 20]))
           4 (mk_window 7 0));
    [intros j; reflexivity|cbn; lia|vm_compute; lia].
Defined.

(** ** [scroll_to_load_all_posts] *)

Section FeedNoRaise.

Variable page : feed_page.
Hypothesis Hnr : forall j, page_raises page j = false.

Lemma feed_noraise expected_posts max_scrolls :
  scroll_to_load_all_posts page expected_posts max_scrolls
  = option_map fst (feed_loop (Z.to_nat max_scrolls) page expected_posts max_scrolls 0 (body_height page 0) 0 1).
Proof.
  unfold scroll_to_load_all_posts; rewrite Hnr.
  destruct (feed_loop _ _ _ _ _ _ _ _) as [[sc call]|]; [|reflexivity].
  rewrite Hnr; reflexivity.
Qed.

Lemma feed_loop_range expected_posts max_scrolls :
  forall fuel sc last nc call,
  exists k, option_map fst (feed_loop fuel page expected_posts max_scrolls sc last nc call) = Some k
            /\ (k = sc \/ (sc < k <= Z.to_nat max_scrolls)%nat).
Proof.
  induction fuel as [|f IH]; intros sc last nc call; cbn [feed_loop]; [exists sc; auto|].
  destruct (Z.ltb (Z.of_nat sc) max_scrolls) eqn:Hlt; [|exists sc; auto].
  apply Z.ltb_lt in Hlt; rewrite !Hnr.
  repeat match goal with
  | |- context [if ?b then _ else _] => destruct b
  end;
  try (eexists; split; [reflexivity|right; cbn [fst]; lia]);
  match goal with
  | |- context [feed_loop f page expected_posts max_scrolls (S sc) ?h ?c ?cl] =>
      destruct (IH (S sc) h c cl) as [k [Hk Hr]]; exists k; split; [exact Hk|right; lia]
  end.
Qed.

Lemma feed_loop_constant max_scrolls h :
  (forall k, body_height page k = h) ->
  forall fuel sc nc call, (nc < 3)%nat -> (sc + fuel = Z.to_nat max_scrolls)%nat ->
  option_map fst (feed_loop fuel page None max_scrolls sc h nc call) = Some (sc + Nat.min (3 - nc) fuel)%nat.
Proof.
  intros Hh fuel; induction fuel as [|f IH]; intros sc nc call Hnc Hf; cbn [feed_loop].
  - cbn [option_map fst]; f_equal; lia.
  - rewrite (proj2 (Z.ltb_lt (Z.of_nat sc) max_scrolls) ltac:(lia)), !Hnr, Hh, Z.eqb_refl.
    destruct (Nat.leb 3 (S nc)) eqn:E.
    + apply Nat.leb_le in E; cbn [option_map fst]; f_equal; lia.
    + apply Nat.leb_gt in E; simpl reached_expected; cbv iota.
      rewrite IH by lia; f_equal; lia.
Qed.

Lemma feed_loop_growing max_scrolls :
  (forall k, body_height page (S k) <> body_height page k) ->
  forall fuel sc nc call, (sc + fuel = Z.to_nat max_scrolls)%nat ->
  option_map fst (feed_loop fuel page None max_scrolls sc (body_height page sc) nc call) = Some (sc + fuel)%nat.
Proof.
  intros Hh fuel; induction fuel as [|f IH]; intros sc nc call Hf; cbn [feed_loop].
  - cbn [option_map fst]; f_equal; lia.
  - rewrite (proj2 (Z.ltb_lt (Z.of_nat sc) max_scrolls) ltac:(lia)), !Hnr.
    rewrite (proj2 (Z.eqb_neq _ _) (Hh sc)); simpl reached_expected; cbv iota.
    rewrite IH by lia; f_equal; lia.
Qed.

End FeedNoRaise.

(** X7. When no [execute_script] call raises, [scroll_to_load_all_posts]
    returns normally after at least one and at most [max_scrolls] scrolls,
    and after none when [max_scrolls <= 0]. *)
Theorem scroll_count_bounds page expected_posts max_scrolls :
  (forall j, page_raises page j = false) ->
  exists k, scroll_to_load_all_posts page expected_posts max_scrolls = Some k
    /\ ((Z.to_nat max_scrolls = 0%nat /\ k = 0%nat) \/ (1 <= k <= Z.to_nat max_scrolls)%nat).
Proof.
  intros Hnr; rewrite (feed_noraise page Hnr).
  destruct (Z.to_nat max_scrolls) as [|f] eqn:Hm; [exists 0%nat; split; [reflexivity|left; auto]|].
  cbn [feed_loop].
  rewrite (proj2 (Z.ltb_lt (Z.of_nat 0) max_scrolls) ltac:(lia)), !Hnr.
  repeat match goal with
  | |- context [if ?b then _ else _] => destruct b
  end;
  try (eexists; split; [reflexivity|right; cbn [fst]; lia]);
  match goal with
  | |- context [feed_loop ?fu page ?e ?m 1 ?h ?c ?cl] =>
      destruct (feed_loop_range page Hnr e m fu 1 h c cl) as [k [Hk Hr]];
      exists k; split; [exact Hk|right; lia]
  end.
Qed.

Lemma scroll_count_bounds_witness :
  exists k, scroll_to_load_all_posts (mk_feed_page (fun _ => false) (fun _ => 1200%Z) (fun _ => None)) None 5%Z
              = Some k
    /\ ((Z.to_nat 5 = 0%nat /\ k = 0%nat) \/ (1 <= k <= Z.to_nat 5)%nat).
Proof.
  apply (scroll_count_bounds (mk_feed_page (fun _ => false) (fun _ => 1200%Z) (fun _ => None)) None 5%Z).
  intros j; reflexivity.
Defined.

(** X8. When no call raises, on a page whose height never changes and with
    no expected count, the loop stops after three unchanged heights: it
    scrolls [min(3, max_scrolls)] times. *)
Theorem scroll_stops_after_three_unchanged page max_scrolls :
  (forall j, page_raises page j = false) ->
  (forall k, body_height page k = body_height page 0) ->
  scroll_to_load_all_posts page None max_scrolls = Some (Nat.min 3 (Z.to_nat max_scrolls)).
Proof.
  intros Hnr Hh; rewrite (feed_noraise page Hnr).
  rewrite (feed_loop_constant page Hnr max_scrolls (body_height page 0) Hh) by lia.
  f_equal; lia.
Qed.

Lemma scroll_stops_after_three_unchanged_witness :
  scroll_to_load_all_posts (mk_feed_page (fun _ => false) (fun _ => 1200%Z) (fun _ => None)) None 50%Z
  = Some 3%nat.
Proof.
  apply (scroll_stops_after_three_unchanged (mk_feed_page (fun _ => false) (fun _ => 1200%Z) (fun _ => None)) 50%Z);
    intros k; reflexivity.
Defined.

(** X9. When no call raises, on a page whose height changes after every
    scroll and with no expected count, the loop runs all [max_scrolls]
    iterations. *)
Theorem scroll_runs_all_when_growing page max_scrolls :
  (forall j, page_raises page j = false) ->
  (forall k, body_height page (S k) <> body_height page k) ->
  scroll_to_load_all_posts page None max_scrolls = Some (Z.to_nat max_scrolls).
Proof.
  intros Hnr Hh; rewrite (feed_noraise page Hnr).
  rewrite (feed_loop_growing page Hnr max_scrolls Hh) by lia; reflexivity.
Qed.

Lemma scroll_runs_all_when_growing_witness :
  scroll_to_load_all_posts
    (mk_feed_page (fun _ => false) (fun k => (1200 + 600 * Z.of_nat k)%Z) (fun _ => Some [])) None 50%Z
  = Some 50%nat.
Proof.
  apply (scroll_runs_all_when_growing
           (mk_feed_page (fun _ => false) (fun k => (1200 + 600 * Z.of_nat k)%Z) (fun _ => Some [])) 50%Z);
    [intros j; reflexivity|intros k; cbn [body_height]; lia].
Defined.

(** X11. When no call raises, a negative [expected_posts] is truthy and
    already reached by any count of images, so the loop stops after its
    first scroll. *)
Theorem scroll_expected_negative_one_scroll page e max_scrolls :
  (forall j, page_raises page j = false) -> (e < 0)%Z ->
  scroll_to_load_all_posts page (Some e) max_scrolls = Some (Nat.min 1 (Z.to_nat max_scrolls)).
Proof.
  intros Hnr He; rewrite (feed_noraise page Hnr).
  destruct (Z.to_nat max_scrolls) as [|f] eqn:Hm; [reflexivity|].
  cbn [feed_loop]; rewrite (proj2 (Z.ltb_lt (Z.of_nat 0) max_scrolls) ltac:(lia)), !Hnr.
  assert (Hr : forall c, reached_expected (Some e) c = true).
  { intros c; unfold reached_expected.
    rewrite (proj2 (Z.eqb_neq e 0) ltac:(lia)), (proj2 (Z.leb_le e (Z.of_nat c)) ltac:(lia)); reflexivity. }
  rewrite !Hr.
  destruct (Z.eqb _ _); [|reflexivity].
  destruct (Nat.leb 3 1); reflexivity.
Qed.

Lemma scroll_expected_negative_one_scroll_witness :
  scroll_to_load_all_posts
    (mk_feed_page (fun _ => false) (fun k => (1200 + 600 * Z.of_nat k)%Z) (fun _ => Some [])) (Some (-5)%Z) 50%Z
  = Some 1%nat.
Proof.
  apply (scroll_expected_negative_one_scroll
           (mk_feed_page (fun _ => false) (fun k => (1200 + 600 * Z.of_nat k)%Z) (fun _ => Some []))
           (-5)%Z 50%Z);
    [intros j; reflexivity|lia].
Defined.



(** ** [save_to_csv] *)

(** X10. [save_to_csv] writes nothing when there is no record. Otherwise
    the field names are the keys of the first record, in order, and the
    header lists them. When every record's keys are among them, one row per
    record follows, its values in field order, with a missing key or [None]
    as an empty cell. When a record has another key, [ValueError] is raised
    after the header and the rows of the records before it are written. *)
Theorem save_to_csv_rows posts_data :
  (posts_data = [] -> save_to_csv posts_data = NoData)
  /\ (forall first rest, posts_data = first :: rest ->
       let fieldnames := map fst first in
       ((forall r, In r posts_data -> forall k, In k (map fst r) -> In k fieldnames) ->
          save_to_csv posts_data = CsvWritten (map u fieldnames :: map (csv_cells fieldnames) posts_data))
       /\ (forall pre r post k, posts_data = pre ++ r :: post ->
             (forall r', In r' pre -> forall k', In k' (map fst r') -> In k' fieldnames) ->
             In k (map fst r) -> ~ In k fieldnames ->
             save_to_csv posts_data = CsvValueError (map u fieldnames :: map (csv_cells fieldnames) pre))).
Proof.
  split; [intros ->; reflexivity|].
  intros first rest -> fieldnames; split.
  - intros H; unfold save_to_csv; cbv beta iota zeta.
    rewrite (write_rows_keys (map fst first) (first :: rest) H); reflexivity.
  - intros pre r post k Heq Hpre Hin Hnot; unfold save_to_csv; cbv beta iota zeta.
    rewrite Heq.
    replace (write_rows (map fst first) (pre ++ r :: post)) with (map (csv_cells (map fst first)) pre, true)
      by (symmetry; exact (write_rows_extra (map fst first) pre r post k Hpre Hin Hnot)).
    reflexivity.
Qed.

Lemma save_to_csv_rows_witness :
  save_to_csv [[("a", PStr (u "1"))]; [("b", PStr (u "2"))]]
  = CsvValueError [[u "a"]; [u "1"]].
Proof.
  apply (proj2 (proj2 (save_to_csv_rows [[("a", PStr (u "1"))]; [("b", PStr (u "2"))]]) _ _ eq_refl)
           [[("a", PStr (u "1"))]] [("b", PStr (u "2"))] [] "b" eq_refl).
  - intros r' [<-|[]] k' [<-|[]]; left; reflexivity.
  - left; reflexivity.
  - intros [E|[]]; discriminate.
Defined.

(** ** [_count_visible_posts] *)

Lemma containsb_tail s a p : containsb s (a :: p) = true -> containsb s p = true.
Proof.
  induction s as [|b s IH]; intros H; [cbn in H; discriminate H|].
  cbn [containsb] in H |- *.
  apply orb_true_iff in H as [H|H]; apply orb_true_iff; right.
  - cbn [prefixb] in H; apply andb_true_iff in H as [_ H].
    destruct s as [|c s]; cbn [containsb]; rewrite H; reflexivity.
  - apply IH, H.
Qed.

Lemma containsb_app s p q : containsb s (p ++ q) = true -> containsb s q = true.
Proof.
  induction p as [|a p IH]; [auto|].
  intros H; apply IH, (containsb_tail s a), H.
Qed.

(** X12. The 'cdninstagram' test of the XPath adds nothing: the count is the
    number of [img] elements whose [src] contains 'instagram' (0 when
    [find_elements] raises). *)
Theorem count_visible_posts_instagram images :
  count_visible_posts images
  = match images with
    | None => 0%nat
    | Some l => List.length (filter (fun src => match src with
                                                 | Some s => containsb s (u "instagram")
                                                 | None => false
                                                 end) l)
    end.
Proof.
  destruct images as [l|]; [simpl|reflexivity].
  f_equal; apply filter_ext; intros [s|]; [unfold src_selected|reflexivity].
  destruct (containsb s (u "cdninstagram")) eqn:E; [|reflexivity].
  change (u "cdninstagram") with ([99; 100; 110]%N ++ u "instagram") in E.
  apply containsb_app in E; rewrite E; reflexivity.
Qed.

(** ** [print_summary] *)

Lemma map_option_None {A B} (f : A -> option B) l :
  map_option f l = None <-> exists x, In x l /\ f x = None.
Proof.
  induction l as [|x l IH]; simpl.
  - split; [discriminate|intros [y [[] _]]].
  - destruct (f x) eqn:Ex; destruct (map_option f l) eqn:El.
    + split; [discriminate|].
      intros [y [[<-|Hy] Hfy]]; [congruence|].
      assert (H : Some l0 = None) by (apply IH; exists y; auto); discriminate.
    + split; [intros _|reflexivity].
      destruct (proj1 IH eq_refl) as [y [Hy Hfy]]; exists y; auto.
    + split; [intros _; exists x; auto|reflexivity].
    + split; [intros _; exists x; auto|reflexivity].
Qed.

Lemma summary_line_None post : summary_line post = None <-> dict_get "label" post = None.
Proof.
  unfold summary_line; destruct (dict_get "label" post); split; congruence.
Qed.

Lemma firstn_build_posts clock i l k :
  firstn k (build_posts clock i l) = build_posts clock i (firstn k l).
Proof.
  revert i k; induction l as [|x l IH]; intros i k; destruct k; simpl; try reflexivity.
  rewrite IH; reflexivity.
Qed.

Lemma summary_lines_build_posts clock i l :
  exists lines, map_option summary_line (build_posts clock i l) = Some lines
    /\ List.length lines = List.length l
    /\ forall k c, nth_error l k = Some c ->
         nth_error lines k = Some (u "  " ++ u "image" ++ py_str_nat (i + k + 1) ++ u ": " ++ text c ++ u " views").
Proof.
  revert i; induction l as [|x l IH]; intros i.
  - exists []; split; [reflexivity|split; [reflexivity|intros [|k] c; discriminate]].
  - destruct (IH (S i)) as [lines [Hl [Hlen Hnth]]].
    exists ((u "  " ++ u "image" ++ py_str_nat (i + 1) ++ u ": " ++ text x ++ u " views") :: lines).
    split; [simpl; rewrite Hl; reflexivity|split; [simpl; rewrite Hlen; reflexivity|]].
    intros [|k] c Hk; simpl in Hk |- *.
    + injection Hk as <-; rewrite Nat.add_0_r; reflexivity.
    + rewrite (Hnth k c Hk); replace (S i + k)%nat with (i + S k)%nat by lia; reflexivity.
Qed.

(** X13. [print_summary] raises a [KeyError] exactly when one of the first
    ten records has no ['label'] key; later records are never read, and a
    missing ['views'] key is printed as 'N/A'. *)
Theorem print_summary_key_error posts_data :
  print_summary posts_data = None
  <-> exists post, In post (firstn 10 posts_data) /\ dict_get "label" post = None.
Proof.
  destruct posts_data as [|p0 r].
  - simpl; split; [discriminate|intros [p [[] _]]].
  - unfold print_summary.
    destruct (map_option summary_line (firstn 10 (p0 :: r))) eqn:E.
    + split; [discriminate|].
      intros [p [Hp Hl]]; apply summary_line_None in Hl.
      assert (H : map_option summary_line (firstn 10 (p0 :: r)) = None)
        by (apply map_option_None; exists p; auto).
      congruence.
    + split; [intros _|reflexivity].
      apply map_option_None in E as [p [Hp Hl]]; exists p; split; [exact Hp|].
      apply summary_line_None, Hl.
Qed.

(** X14. On the records of [extract_post_views], [print_summary] never
    raises: it prints one line when there are none and otherwise six header
    lines, one line per record for the first ten, and a closing
    ['  ... and k more'] line, [k] the number of records past the tenth,
    when there are more than ten; the [i]-th record line is
    ['  image<i+1>: <views> views'] for the [i]-th candidate in row-major
    order. *)
Theorem print_summary_of_records passes spans clock :
  let R := extract_post_views passes spans clock in
  exists L, print_summary R = Some L
    /\ List.length L = (if Nat.eqb (List.length R) 0 then 1
                        else 6 + Nat.min 10 (List.length R)
                             + (if Nat.ltb 10 (List.length R) then 1 else 0))%nat
    /\ (forall i c, (i < 10)%nat ->
         nth_error (sort_rows (final_candidates passes spans)) i = Some c ->
         nth_error L (6 + i)%nat = Some (u "  " ++ u "image" ++ py_str_nat (i + 1) ++ u ": " ++ text c ++ u " views"))
    /\ ((10 < List.length R)%nat ->
         nth_error L 16%nat = Some (u "  ... and " ++ py_str_nat (List.length R - 10) ++ u " more")).
Proof.
  intros R; unfold R; rewrite extract_post_views_eq.
  destruct (sort_rows (final_candidates passes spans)) as [|c0 V] eqn:EV.
  - simpl; eexists; split; [reflexivity|split; [reflexivity|split; [intros [|i] c _ Hc; discriminate|]]].
    cbn; lia.
  - destruct (summary_lines_build_posts clock 0 (firstn 10 (c0 :: V))) as [lines [Hl [Hlen Hnth]]].
    rewrite <- firstn_build_posts in Hl.
    change (build_posts clock 0 (c0 :: V)) with (mk_post 0 c0 (clock 0%nat) :: build_posts clock 1 V) in Hl |- *.
    unfold print_summary; rewrite Hl.
    eexists; split; [reflexivity|split; [|split]].
    + rewrite length_app, length_app; cbn [List.length].
      rewrite Hlen, length_firstn, build_posts_length.
      destruct (Nat.ltb 10 (S (List.length V))); simpl; lia.
    + intros i c Hi Hc.
      assert (Hc' : nth_error (firstn 10 (c0 :: V)) i = Some c)
        by (rewrite nth_error_firstn, (proj2 (Nat.ltb_lt i 10) Hi); exact Hc).
      pose proof (Hnth i c Hc') as Hi'.
      assert (Hlt : (i < List.length lines)%nat) by (apply nth_error_Some; congruence).
      rewrite nth_error_app2 by (cbn [List.length]; lia).
      cbn [List.length]; replace (6 + i - 6)%nat with i by lia.
      rewrite nth_error_app1 by exact Hlt.
      exact Hi'.
    + intros Hn.
      cbn [List.length] in Hn |- *; rewrite build_posts_length in Hn |- *.
      rewrite (proj2 (Nat.ltb_lt 10 (S (List.length V))) Hn).
      rewrite nth_error_app2 by (cbn [List.length]; lia).
      cbn [List.length]; replace (16 - 6)%nat with (List.length lines) by (rewrite Hlen, length_firstn; cbn [List.length]; lia).
      rewrite nth_error_app2, Nat.sub_diag by lia; reflexivity.
Qed.

(** ** The two numeric grammars on ASCII texts *)

Lemma ascii_check (P : N -> bool) :
  forallb (fun k => P (N.of_nat k)) (seq 0 128) = true -> forall c, (c < 128)%N -> P c = true.
Proof.
  intros H c Hc.
  rewrite forallb_forall in H.
  rewrite <- (N2Nat.id c); apply H, in_seq; lia.
Qed.

Ltac ascii_fact c Hc :=
  match goal with
  | |- ?lhs = ?rhs =>
      let P := eval pattern c in (Bool.eqb lhs rhs) in
      match P with
      | ?f c => apply Bool.eqb_prop; apply (ascii_check f); [vm_compute; reflexivity|exact Hc]
      end
  end.

Lemma ascii_py_digit c : (c < 128)%N -> py_digit c = is_digit c.
Proof. intros Hc; ascii_fact c Hc. Qed.

Lemma ascii_space_kmb c : (c < 128)%N -> js_space c && is_kmb c = false.
Proof. intros Hc; ascii_fact c Hc. Qed.

Lemma ascii_digit_space c : (c < 128)%N -> is_digit c && js_space c = false.
Proof. intros Hc; ascii_fact c Hc. Qed.

Lemma ascii_dot_space c : (c < 128)%N -> N.eqb c 46 && js_space c = false.
Proof. intros Hc; ascii_fact c Hc. Qed.

Lemma last_cons_ne (c d : N) r : last (c :: d :: r) 0%N = last (d :: r) 0%N.
Proof. reflexivity. Qed.

Section AsciiGrammars.

Let nows (s : str) : bool := forallb (fun c => negb (js_space c)) s.

Lemma f_suffix_p_ws s :
  Forall (fun c => (c < 128)%N) s -> last s 0%N <> 10%N -> f_suffix s = p_ws s && nows s.
Proof.
  destruct s as [|c r]; [reflexivity|]; intros Ha Hl.
  inversion Ha as [|? ? Hc Hr]; subst.
  assert (Hpd : py_dollar r = is_empty r).
  { destruct r as [|d [|e r]]; [reflexivity| |reflexivity].
    cbn in Hl |- *; apply N.eqb_neq, Hl. }
  assert (Hpc : py_dollar (c :: r) = false).
  { destruct r as [|d r]; [cbn in Hl |- *; apply N.eqb_neq, Hl|destruct r; reflexivity]. }
  unfold f_suffix; rewrite Hpc, orb_false_r, Hpd.
  cbn [p_ws nows forallb].
  pose proof (ascii_space_kmb c Hc) as Hsk.
  destruct (js_space c) eqn:Hs.
  - cbn [andb] in Hsk; rewrite Hsk; cbn [negb andb]; rewrite andb_false_r; reflexivity.
  - cbn [negb andb p_suffix p_end]; destruct r; cbn; [rewrite !andb_true_r; reflexivity|].
    rewrite !andb_false_r; reflexivity.
Qed.

Lemma f_frac_p_frac s :
  Forall (fun c => (c < 128)%N) s -> last s 0%N <> 10%N -> f_frac s = p_frac s && nows s.
Proof.
  induction s as [|c r IH]; intros Ha Hl; [reflexivity|].
  inversion Ha as [|? ? Hc Hr]; subst.
  cbn [f_frac p_frac]; rewrite (ascii_py_digit c Hc).
  destruct (is_digit c) eqn:Hd.
  - pose proof (ascii_digit_space c Hc) as Hds; rewrite Hd in Hds; cbn [andb] in Hds.
    cbn [nows forallb]; rewrite Hds; cbn [negb andb].
    apply IH; [exact Hr|].
    destruct r as [|d r]; [discriminate|rewrite <- last_cons_ne with (c := c); exact Hl].
  - apply f_suffix_p_ws; assumption.
Qed.

Lemma f_dot_p_dot s :
  Forall (fun c => (c < 128)%N) s -> last s 0%N <> 10%N -> f_dot s = p_dot s && nows s.
Proof.
  destruct s as [|c r]; intros Ha Hl; [reflexivity|].
  inversion Ha as [|? ? Hc Hr]; subst.
  cbn [f_dot p_dot].
  destruct (N.eqb c 46) eqn:Hdot.
  - pose proof (ascii_dot_space c Hc) as Hds; rewrite Hdot in Hds; cbn [andb] in Hds.
    cbn [nows forallb]; rewrite Hds; cbn [negb andb].
    apply f_frac_p_frac; [exact Hr|].
    destruct r as [|d r]; [discriminate|rewrite <- last_cons_ne with (c := c); exact Hl].
  - apply f_frac_p_frac; assumption.
Qed.

Lemma f_int_p_int s :
  Forall (fun c => (c < 128)%N) s -> last s 0%N <> 10%N -> f_int s = p_int s && nows s.
Proof.
  induction s as [|c r IH]; intros Ha Hl; [reflexivity|].
  inversion Ha as [|? ? Hc Hr]; subst.
  cbn [f_int p_int]; rewrite (ascii_py_digit c Hc).
  destruct (is_digit c) eqn:Hd.
  - pose proof (ascii_digit_space c Hc) as Hds; rewrite Hd in Hds; cbn [andb] in Hds.
    cbn [nows forallb]; rewrite Hds; cbn [negb andb].
    apply IH; [exact Hr|].
    destruct r as [|d r]; [discriminate|rewrite <- last_cons_ne with (c := c); exact Hl].
  - apply f_dot_p_dot; assumption.
Qed.

End AsciiGrammars.

(** X16. On a text of ASCII characters that does not end in a newline (in
    particular on any stripped ASCII text), the fallback pattern of line 336
    matches exactly when the primary grammar of line 192 matches and the text
    has no white space: on such texts the two differ only by the optional
    white space the primary grammar allows before the suffix. *)
Theorem fallback_vs_primary_ascii s :
  Forall (fun c => (c < 128)%N) s -> last s 0%N <> 10%N ->
  fallback_match s = primary_match s && forallb (fun c => negb (js_space c)) s.
Proof.
  destruct s as [|c r]; intros Ha Hl; [reflexivity|].
  inversion Ha as [|? ? Hc Hr]; subst.
  cbn [fallback_match primary_match forallb]; rewrite (ascii_py_digit c Hc).
  destruct (is_digit c) eqn:Hd; [|reflexivity].
  pose proof (ascii_digit_space c Hc) as Hds; rewrite Hd in Hds; cbn [andb] in Hds.
  rewrite Hds; cbn [negb andb].
  apply f_int_p_int; [exact Hr|].
  destruct r as [|d r]; [discriminate|rewrite <- last_cons_ne with (c := c); exact Hl].
Qed.

Lemma fallback_vs_primary_ascii_witness :
  fallback_match (u "4 K") = primary_match (u "4 K") && forallb (fun c => negb (js_space c)) (u "4 K")
  /\ fallback_match (u "4.4K") = primary_match (u "4.4K") && forallb (fun c => negb (js_space c)) (u "4.4K").
Proof.
  split.
  - apply fallback_vs_primary_ascii; [repeat constructor|discriminate].
  - apply fallback_vs_primary_ascii; [repeat constructor|discriminate].
Defined.
